(** * pydcpu: a shallow embedding of [dcpu.py]

    The emulator keeps one mutable object per CPU (memory, registers, program
    counter, stack pointer, overflow flag) and every method mutates it in
    place; a Python exception leaves the object as it was at the [raise].
    The embedding threads the object explicitly through a state monad whose
    failure case keeps the state reached so far.

    Python integers are unbounded, so values are [Z]; the 16-bit wrap is the
    explicit [val & _MAX_VAL] of the source.  The memory is an
    [array.array('H', ...)]: a fixed-length sequence that rejects items
    outside 0..65535. *)

From Stdlib Require Import ZArith Bool Lia String.
From stdpp Require Import base list.

#[local] Open Scope Z_scope.

(** ** Constants of the three mix-in classes *)

(** [class DCPU_OpCodes] *)
Definition NOP : Z := 0.
Definition SET : Z := 1.
Definition ADD : Z := 2.
Definition SUB : Z := 3.
Definition MUL : Z := 4.
Definition DIV : Z := 5.
Definition MOD : Z := 6.
Definition SHL : Z := 7.
Definition SHR : Z := 8.
Definition AND : Z := 9.
Definition BOR : Z := 10.
Definition XOR : Z := 11.
Definition IFE : Z := 12.
Definition IFN : Z := 13.
Definition IFG : Z := 14.
Definition IFB : Z := 15.

(** [class DCPU_Values].  A Python [range(lo, hi)] is kept as its two bounds;
    [vc in range(lo, hi)] is [in_range vc (lo, hi)] and [range(lo, hi)[0]] is
    [range_start]. *)
Definition py_range : Type := (Z * Z)%type.
Definition in_range (x : Z) (r : py_range) : bool := (fst r <=? x) && (x <? snd r).
Definition range_start (r : py_range) : Z := fst r.

Definition REG : py_range := (0, 8).
Definition REG_MEM : py_range := (8, 16).
Definition MEM_OFFSET_REG : py_range := (16, 24).
Definition POP : Z := 24.
Definition PEEK : Z := 25.
Definition PUSH : Z := 26.
Definition SP : Z := 27.
Definition PC : Z := 28.
Definition O : Z := 29.
Definition MEM : Z := 30.
Definition MEM_LIT : Z := 31.
Definition NUM_LIT : py_range := (32, 64).

Definition _OP_PORTION : Z := 15.      (* 0b0000000000001111 *)
Definition _AV_PORTION : Z := 1008.    (* 0b0000001111110000 *)
Definition _BV_PORTION : Z := 64512.   (* 0b1111110000000000 *)
Definition _NUM_REGISTERS : Z := 8.
Definition _MAX_VAL : Z := 65535.      (* 0xFFFF *)

(** [class DCPU_Options] *)
Definition _MEMORY_SIZE : Z := 65536.  (* 0x10000 *)
Definition _MEM_DEFAULT : Z := 0.
Definition _REG_DEFAULT : Z := 0.
Definition _PC_DEFAULT : Z := 0.
Definition _SP_DEFAULT : Z := 0.

(** ** The CPU object *)

Record DCPU : Type := mkDCPU {
  memory : list Z;      (* array.array('H', ...) *)
  registers : list Z;   (* a Python list *)
  pc : Z;
  sp : Z;
  o : bool
}.

Definition set_memory (m : list Z) (s : DCPU) : DCPU :=
  mkDCPU m (registers s) (pc s) (sp s) (o s).
Definition set_registers (r : list Z) (s : DCPU) : DCPU :=
  mkDCPU (memory s) r (pc s) (sp s) (o s).
Definition set_pc (v : Z) (s : DCPU) : DCPU :=
  mkDCPU (memory s) (registers s) v (sp s) (o s).
Definition set_sp (v : Z) (s : DCPU) : DCPU :=
  mkDCPU (memory s) (registers s) (pc s) v (o s).
Definition set_o (v : bool) (s : DCPU) : DCPU :=
  mkDCPU (memory s) (registers s) (pc s) (sp s) v.

(** ** Exceptions and the state monad *)

(** The exceptions the methods can raise.  [PyException msg n] is
    [Exception(msg % n)], the one [_abort] raises.  The two Python dialects
    the file announces ("any version of python 2 or 3") differ on [/]. *)
Inductive exn : Type :=
| NameError
| UnboundLocalError
| ZeroDivisionError
| TypeError
| ValueError
| IndexError
| OverflowError
| PyException (msg : string) (arg : Z).

Inductive pyver : Type := Py2 | Py3.

Inductive result (A : Type) : Type :=
| Ok (a : A) (s : DCPU)
| Raise (e : exn) (s : DCPU).
Arguments Ok {A} a s.
Arguments Raise {A} e s.

Definition M (A : Type) : Type := DCPU -> result A.

Definition ret {A} (a : A) : M A := fun s => Ok a s.
Definition bind {A B} (m : M A) (k : A -> M B) : M B :=
  fun s => match m s with
           | Ok a s' => k a s'
           | Raise e s' => Raise e s'
           end.
Definition raise {A} (e : exn) : M A := fun s => Raise e s.
Definition gets {A} (f : DCPU -> A) : M A := fun s => Ok (f s) s.
Definition modify (f : DCPU -> DCPU) : M unit := fun s => Ok tt (f s).

Notation "x <- m ;; k" := (bind m (fun x => k))
  (at level 100, m at level 99, k at level 200, right associativity).
Notation "m ;; k" := (bind m (fun _ => k))
  (at level 100, k at level 200, right associativity).

(** The state a computation stops in, whether it returned or raised. *)
Definition final_state {A} (r : result A) : DCPU :=
  match r with Ok _ s => s | Raise _ s => s end.

(** ** Sequences *)

(** Python subscripting: [-len <= i < 0] counts from the end, anything else
    outside [0, len) is an IndexError. *)
Definition py_index {A} (l : list A) (i : Z) : option nat :=
  let n := Z.of_nat (length l) in
  if (0 <=? i) && (i <? n) then Some (Z.to_nat i)
  else if (- n <=? i) && (i <? 0) then Some (Z.to_nat (i + n))
  else None.

Definition seq_get (l : list Z) (i : Z) : option Z :=
  match py_index l i with
  | Some k => l !! k
  | None => None
  end.

(** [self.memory[i]] *)
Definition mem_get (i : Z) : M Z := fun s =>
  match seq_get (memory s) i with
  | Some w => Ok w s
  | None => Raise IndexError s
  end.

(** [self.memory[i] = v]: the index is checked first, then the item must fit
    an unsigned short. *)
Definition mem_set (i v : Z) : M unit := fun s =>
  match py_index (memory s) i with
  | Some k =>
      if (v <? 0) || (v >? _MAX_VAL) then Raise OverflowError s
      else Ok tt (set_memory (<[k := v]> (memory s)) s)
  | None => Raise IndexError s
  end.

(** [self.registers[i]] and [self.registers[i] = v] *)
Definition reg_get (i : Z) : M Z := fun s =>
  match seq_get (registers s) i with
  | Some w => Ok w s
  | None => Raise IndexError s
  end.

Definition reg_set (i v : Z) : M unit := fun s =>
  match py_index (registers s) i with
  | Some k => Ok tt (set_registers (<[k := v]> (registers s)) s)
  | None => Raise IndexError s
  end.

(** ** Names that are not in scope

    The module binds [array] and the four classes, nothing else.  [IFN],
    [IFG], [IFB] and [NUM_LIT] are class attributes read without [self.], so
    loading them as globals raises NameError.  [reg] is a local of [_setval]
    that is assigned in one branch only; reading it in another raises
    UnboundLocalError.  The two loads below stand for these names only. *)
Definition load_global {A} (name : string) : M A := raise NameError.
Definition load_unbound_local {A} (name : string) : M A := raise UnboundLocalError.

(** ** The methods of [class DCPU] *)

(** [_buffer(size, default)] *)
Definition _buffer (size default : Z) : list Z := replicate (Z.to_nat size) default.

(** [_init_cpu(size, num_registers)]; the register file is sized by
    [self._NUM_REGISTERS], the parameter is not used. *)
Definition _init_cpu (size num_registers : Z) : DCPU :=
  {| memory := _buffer size _MEM_DEFAULT;
     registers := replicate (Z.to_nat _NUM_REGISTERS) _REG_DEFAULT;
     pc := _PC_DEFAULT;
     sp := _SP_DEFAULT;
     o := false |}.

(** [__init__] *)
Definition __init__ : DCPU := _init_cpu _MEMORY_SIZE _NUM_REGISTERS.

(** [_has_overflown(val)] *)
Definition _has_overflown (val : Z) : bool := (val <? 0) || (val >? _MAX_VAL).

(** [_overflown(val, setO)]: the flag is assigned whatever [setO] is. *)
Definition _overflown (val : Z) (setO : bool) : M Z :=
  modify (set_o (_has_overflown val)) ;;
  ret (Z.land val _MAX_VAL).

(** [_incPC], [_incSP], [_decSP] *)
Definition _incPC : M unit :=
  p <- gets pc ;; v <- _overflown (p + 1) true ;; modify (set_pc v).
Definition _incSP : M unit :=
  p <- gets sp ;; v <- _overflown (p + 1) true ;; modify (set_sp v).
Definition _decSP : M unit :=
  p <- gets sp ;; v <- _overflown (p - 1) true ;; modify (set_sp v).

(** [_abort(message)]: prints the object, then raises. *)
Definition _abort {A} (msg : string) (arg : Z) : M A := raise (PyException msg arg).

(** The float that Python 3 computes for [a / b] is only ever compared with 0
    and [_MAX_VAL] before the [&] in [_overflown] rejects it.  The comparison
    is made here on the exact quotient, which agrees with the rounded one on
    every pair of operands read from memory or registers of a well-formed
    CPU. *)
Definition quotient_has_overflown (a b : Z) : bool :=
  (Z.sgn a * Z.sgn b <? 0) || (_MAX_VAL * Z.abs b <? Z.abs a).

(** [_tick(op, a, b)]: [None] is Python's [None] (leave operand a alone),
    [Some v] the value to store.  The chain down to [SHR] falls through to
    the final [return self._overflown(a, setO=True)]; [AND], [BOR], [XOR]
    [return a]; the conditionals [return] nothing. *)
Definition _tick (py : pyver) (op a b : Z) : M (option Z) :=
  let return_overflown (a : Z) : M (option Z) :=
    v <- _overflown a true ;; ret (Some v) in
  if op =? NOP then ret None
  else if op =? SET then (* b = a *) return_overflown a
  else if op =? ADD then return_overflown (a + b)
  else if op =? SUB then return_overflown (a - b)
  else if op =? MUL then return_overflown (a * b)
  else if op =? DIV then
    if b =? 0 then raise ZeroDivisionError
    else match py with
         | Py2 => return_overflown (a / b)
         | Py3 => modify (set_o (quotient_has_overflown a b)) ;; raise TypeError
         end
  else if op =? MOD then
    if b =? 0 then raise ZeroDivisionError else return_overflown (a mod b)
  else if op =? SHL then
    if b <? 0 then raise ValueError else return_overflown (Z.shiftl a b)
  else if op =? SHR then
    if b <? 0 then raise ValueError else return_overflown (Z.shiftr a b)
  else if op =? AND then ret (Some (Z.land a b))
  else if op =? BOR then ret (Some (Z.lor a b))
  else if op =? XOR then ret (Some (Z.lxor a b))
  else if op =? IFE then
    (if negb (a =? b) then _incPC else ret tt) ;; ret None
  else
    ifn <- load_global "IFN" ;;
    if op =? ifn then
      (if a =? b then _incPC else ret tt) ;; ret None
    else
      ifg <- load_global "IFG" ;;
      if op =? ifg then
        (if a <=? b then _incPC else ret tt) ;; ret None
      else
        ifb <- load_global "IFB" ;;
        if op =? ifb then
          (* not (a or b) *)
          (if (a =? 0) && (b =? 0) then _incPC else ret tt) ;; ret None
        else
          _abort "UNKNOWN OPCODE %d" op.

(** [_setval(vc, f)]: [f = None] reads, [f = Some v] stores [v].  The result
    is what the Python call returns ([None] where it falls off the end). *)
Definition _setval (vc : Z) (f : option Z) : M (option Z) :=
  if in_range vc REG then
    match f with
    | None => r <- reg_get vc ;; ret (Some r)
    | Some v => reg_set vc v ;; ret None
    end
  else if in_range vc REG_MEM then
    let vc := vc - range_start REG_MEM in
    match f with
    | None =>
        reg <- load_unbound_local "reg" ;;
        i <- reg_get reg ;; w <- mem_get i ;; ret (Some w)
    | Some v =>
        reg <- load_unbound_local "reg" ;;
        i <- reg_get reg ;; mem_set i v ;; ret None
    end
  else if in_range vc MEM_OFFSET_REG then
    let vc := vc - range_start MEM_OFFSET_REG in
    _incPC ;;
    p <- gets pc ;;
    next_mem <- mem_get p ;;
    reg <- reg_get vc ;;
    vc <- _overflown (reg + next_mem) true ;;
    match f with
    | None => w <- mem_get vc ;; ret (Some w)
    | Some v => mem_set vc v ;; ret None
    end
  else if vc =? POP then
    vc <- match f with
          | None => p <- gets sp ;; mem_get p
          | Some v => p <- gets sp ;; mem_set p v ;; ret vc
          end ;;
    _incSP ;;
    ret (Some vc)
  else if vc =? PEEK then
    match f with
    | None => p <- gets sp ;; w <- mem_get p ;; ret (Some w)
    | Some v => p <- gets sp ;; mem_set p v ;; ret None
    end
  else if vc =? PUSH then
    _decSP ;;
    match f with
    | None => p <- gets sp ;; w <- mem_get p ;; ret (Some w)
    | Some v => p <- gets sp ;; mem_set p v ;; ret None
    end
  else if vc =? SP then
    match f with
    | None => p <- gets sp ;; ret (Some p)
    | Some v => modify (set_sp v) ;; ret None
    end
  else if vc =? PC then
    match f with
    | None => p <- gets pc ;; ret (Some p)
    | Some v => modify (set_pc v) ;; ret None
    end
  else if vc =? O then
    match f with
    | None => b <- gets o ;; ret (Some (Z.b2z b))
    | Some v => modify (set_o (negb (v =? 0))) ;; ret None
    end
  else if vc =? MEM then
    _incPC ;;
    p <- gets pc ;;
    vc <- mem_get p ;;
    match f with
    | None => w <- mem_get vc ;; ret (Some w)
    | Some v => mem_set vc v ;; ret None
    end
  else if vc =? MEM_LIT then
    match f with
    | Some _ => ret None
    | None => _incPC ;; p <- gets pc ;; w <- mem_get p ;; ret (Some w)
    end
  else
    num_lit <- load_global "NUM_LIT" ;;
    if in_range vc num_lit then
      match f with
      | Some _ => ret None
      | None => ret (Some (vc - range_start num_lit))
      end
    else
      _abort "UNKNOWN VALUE CODE %d" vc.

(** [_getval(vc)] *)
Definition _getval (vc : Z) : M (option Z) := _setval vc None.

(** An operand that were [None] would make the arithmetic of [_tick] raise;
    [_getval_value] below shows that no read returns [None]. *)
Definition as_int (v : option Z) : M Z :=
  match v with Some z => ret z | None => raise TypeError end.

(** [tick], from the decoding of the operand fields to the store of the
    result (the masks are applied in place: the fields are not shifted
    down). *)
Definition tick_execute (py : pyver) (v op : Z) : M unit :=
  let a := Z.land v _AV_PORTION in
  let b := Z.land v _BV_PORTION in
  aval <- _getval a ;;
  bval <- _getval b ;;
  aval <- as_int aval ;;
  bval <- as_int bval ;;
  fval <- _tick py op aval bval ;;
  match fval with
  | Some fval =>
      fval <- _overflown fval true ;;
      _setval a (Some fval) ;;
      ret tt
  | None => ret tt
  end.

(** [tick()]: fetch, the [NOP] early [return], [tick_execute], then the
    closing [_incPC]. *)
Definition tick (py : pyver) : M unit :=
  p <- gets pc ;;
  v <- mem_get p ;;
  let op := Z.land v _OP_PORTION in
  if op =? NOP then ret tt
  else tick_execute py v op ;; _incPC.

(** ** Observations used in the statements *)

(** The word at address [i] and register [i] of a state (0 where the index
    does not exist). *)
Definition mem_at (s : DCPU) (i : Z) : Z := default 0 (seq_get (memory s) i).
Definition reg_at (s : DCPU) (i : Z) : Z := default 0 (seq_get (registers s) i).

(** A freshly built CPU with a program stored from address 0 and given
    registers: what a loader would leave before the first [tick]. *)
Fixpoint poke (addr : nat) (ws : list Z) (m : list Z) : list Z :=
  match ws with
  | [] => m
  | w :: ws' => poke (S addr) ws' (<[addr := w]> m)
  end.

Definition loaded (prog regs : list Z) : DCPU :=
  set_registers (poke 0 regs (registers __init__))
    (set_memory (poke 0 prog (memory __init__)) __init__).

(** What a state is checked to be: 65536 words and 8 registers, each in
    0..65535, and both counters in that range too. *)
Definition is_word (w : Z) : bool := (0 <=? w) && (w <=? _MAX_VAL).

Definition wfb (s : DCPU) : bool :=
  (Z.of_nat (length (memory s)) =? _MEMORY_SIZE)
  && forallb is_word (memory s)
  && (Z.of_nat (length (registers s)) =? _NUM_REGISTERS)
  && forallb is_word (registers s)
  && is_word (pc s)
  && is_word (sp s).

Definition wf (s : DCPU) : Prop := wfb s = true.

(** Outcome of a run projected on what the claims look at. *)
Definition outcome {A} (r : result A) : option exn :=
  match r with Ok _ _ => None | Raise e _ => Some e end.

(** The instruction word of the layout comment [bbbbbbaaaaaaoooo]: opcode in
    the low 4 bits, field a in the next 6, field b in the high 6. *)
Definition encode (op a b : Z) : Z := op + a * 16 + b * 1024.

(** The same as propositions, for the proofs. *)
Record WF (s : DCPU) : Prop := mkWF {
  wf_mem_len : Z.of_nat (length (memory s)) = 65536;
  wf_mem_words : Forall (fun w => 0 <= w <= 65535) (memory s);
  wf_reg_len : Z.of_nat (length (registers s)) = 8;
  wf_reg_words : Forall (fun w => 0 <= w <= 65535) (registers s);
  wf_pc : 0 <= pc s <= 65535;
  wf_sp : 0 <= sp s <= 65535
}.

(** [keeps m Q]: run from a well-formed state, [m] stops in a well-formed
    state, whether it returns or raises, and a returned value satisfies [Q]. *)
Definition keeps {A} (m : M A) (Q : A -> Prop) : Prop :=
  forall s, WF s ->
    match m s with
    | Ok a s' => WF s' /\ Q a
    | Raise _ s' => WF s'
    end.

Definition word (w : Z) : Prop := 0 <= w <= 65535.
Definition any {A} (_ : A) : Prop := True.

(** The state after one advance of the program counter. *)
Definition pc_advanced (s : DCPU) : DCPU :=
  set_pc ((pc s + 1) mod 65536) (set_o (pc s =? 65535) s).

(** The address a code 16..23 designates once pc has moved on to the word it
    consumes. *)
Definition offset_address (s : DCPU) (vc : Z) : Z :=
  reg_at s (vc - 16) + mem_at s ((pc s + 1) mod 65536).

(** The state a code 16..23 leaves: pc one word on, and the flag telling
    whether the address sum wrapped. *)
Definition offset_resolved (s : DCPU) (vc : Z) : DCPU :=
  set_o (_has_overflown (offset_address s vc)) (pc_advanced s).

(** [n] successive calls of [tick] on one CPU, as the driver loop of the
    module makes them ([for d in cpus: d.tick()] inside [while True]); an
    exception is not caught there, so the first one ends the run. *)
Fixpoint ticks (py : pyver) (n : nat) : M unit :=
  match n with
  | 0%nat => ret tt
  | S n' => tick py ;; ticks py n'
  end.

(** The exception of [_abort]. *)
Definition is_abort (e : exn) : bool :=
  match e with PyException _ _ => true | _ => false end.

(** [no_abort m Q]: from any state, [m] either returns a value satisfying
    [Q] or raises something other than the exception of [_abort]. *)
Definition no_abort {A} (m : M A) (Q : A -> Prop) : Prop :=
  forall s,
    match m s with
    | Ok a _ => Q a
    | Raise e _ => is_abort e = false
    end.

(** The address a code 30 designates: the word after the instruction. *)
Definition next_word (s : DCPU) : Z := mem_at s ((pc s + 1) mod 65536).

(** The part of [tick] after the operands are read: the opcode handler, the
    store through operand code [a], and the closing [_incPC]. *)
Definition tick_finish (py : pyver) (op a aval bval : Z) : M unit :=
  (fval <- _tick py op aval bval ;;
   match fval with
   | Some fval =>
       fval <- _overflown fval true ;;
       _setval a (Some fval) ;;
       ret tt
   | None => ret tt
   end) ;;
  _incPC.

(** The value a run returned, if it returned. *)
Definition returned {A} (r : result A) : option A :=
  match r with Ok a _ => Some a | Raise _ _ => None end.

(** The exceptions [tick] can end in from a well-formed state. *)
Definition tick_exception (py : pyver) (e : exn) : bool :=
  match e with
  | NameError | ZeroDivisionError => true
  | TypeError => match py with Py3 => true | Py2 => false end
  | _ => false
  end.

(** ** Basic facts: words, masks and sequences *)

Lemma is_word_iff w : is_word w = true <-> 0 <= w <= 65535.
Proof. unfold is_word, _MAX_VAL. rewrite andb_true_iff, Z.leb_le, Z.leb_le. tauto. Qed.

Lemma land_MAX_VAL v : Z.land v _MAX_VAL = v mod 65536.
Proof. exact (Z.land_ones v 16 ltac:(lia)). Qed.

Lemma land_MAX_VAL_word v : 0 <= Z.land v _MAX_VAL <= 65535.
Proof. rewrite land_MAX_VAL. pose proof (Z.mod_pos_bound v 65536 ltac:(lia)). lia. Qed.

Lemma land_MAX_VAL_id v : 0 <= v <= 65535 -> Z.land v _MAX_VAL = v.
Proof. intros H. rewrite land_MAX_VAL. apply Z.mod_small. lia. Qed.

Lemma _has_overflown_iff v : _has_overflown v = true <-> v < 0 \/ 65535 < v.
Proof.
  unfold _has_overflown, _MAX_VAL.
  rewrite orb_true_iff, Z.ltb_lt, Z.gtb_ltb, Z.ltb_lt. tauto.
Qed.

Lemma _has_overflown_word v : 0 <= v <= 65535 -> _has_overflown v = false.
Proof.
  intros H. apply not_true_is_false. rewrite _has_overflown_iff. lia.
Qed.

Lemma py_index_in_range {A} (l : list A) i :
  0 <= i < Z.of_nat (length l) -> py_index l i = Some (Z.to_nat i).
Proof.
  intros H. unfold py_index.
  replace (0 <=? i) with true by (symmetry; apply Z.leb_le; lia).
  replace (i <? Z.of_nat (length l)) with true by (symmetry; apply Z.ltb_lt; lia).
  reflexivity.
Qed.

Lemma seq_get_in_range (l : list Z) i :
  0 <= i < Z.of_nat (length l) -> seq_get l i = l !! Z.to_nat i.
Proof. intros H. unfold seq_get. now rewrite py_index_in_range. Qed.

Lemma seq_get_is_Some (l : list Z) i :
  0 <= i < Z.of_nat (length l) -> exists w, seq_get l i = Some w.
Proof.
  intros H. rewrite seq_get_in_range by assumption.
  destruct (lookup_lt_is_Some_2 l (Z.to_nat i)) as [w Hw]; [lia | eauto].
Qed.

Lemma py_index_lt {A} (l : list A) i k :
  py_index l i = Some k -> (k < length l)%nat.
Proof.
  unfold py_index. intros H.
  destruct ((0 <=? i) && (i <? Z.of_nat (length l))) eqn:E1.
  - apply andb_true_iff in E1 as [H1 H2]. apply Z.leb_le in H1. apply Z.ltb_lt in H2.
    injection H as <-. lia.
  - destruct ((- Z.of_nat (length l) <=? i) && (i <? 0)) eqn:E2; [| discriminate].
    apply andb_true_iff in E2 as [H1 H2]. apply Z.leb_le in H1. apply Z.ltb_lt in H2.
    injection H as <-. lia.
Qed.

(** ** Well-formed states *)

Lemma forallb_is_word l :
  forallb is_word l = true <-> Forall (fun w => 0 <= w <= 65535) l.
Proof.
  rewrite forallb_forall, Forall_forall. split; intros H x Hx.
  - apply is_word_iff, H, list_elem_of_In, Hx.
  - apply is_word_iff, H, list_elem_of_In, Hx.
Qed.

Lemma wf_WF s : wf s <-> WF s.
Proof.
  unfold wf, wfb, _MEMORY_SIZE, _NUM_REGISTERS.
  rewrite !andb_true_iff, !Z.eqb_eq, !forallb_is_word, !is_word_iff.
  split.
  - intros [[[[[? ?] ?] ?] ?] ?]. now constructor.
  - intros []. tauto.
Qed.

Lemma seq_get_word (l : list Z) i w :
  Forall (fun w => 0 <= w <= 65535) l -> seq_get l i = Some w -> 0 <= w <= 65535.
Proof.
  intros Hl. unfold seq_get. destruct (py_index l i); [| discriminate].
  intros H. rewrite Forall_forall in Hl. apply Hl.
  apply list_elem_of_lookup. eauto.
Qed.

Lemma mem_at_word s i : WF s -> 0 <= mem_at s i <= 65535.
Proof.
  intros H. unfold mem_at. destruct (seq_get (memory s) i) eqn:E; simpl; [| lia].
  eapply seq_get_word; [apply (wf_mem_words _ H) | exact E].
Qed.

Lemma reg_at_word s i : WF s -> 0 <= reg_at s i <= 65535.
Proof.
  intros H. unfold reg_at. destruct (seq_get (registers s) i) eqn:E; simpl; [| lia].
  eapply seq_get_word; [apply (wf_reg_words _ H) | exact E].
Qed.

Lemma mem_get_ok s i : WF s -> 0 <= i <= 65535 -> mem_get i s = Ok (mem_at s i) s.
Proof.
  intros H Hi. unfold mem_get, mem_at.
  destruct (seq_get_is_Some (memory s) i) as [w ->]; [| reflexivity].
  rewrite (wf_mem_len _ H). lia.
Qed.

Lemma reg_get_ok s i : WF s -> 0 <= i < 8 -> reg_get i s = Ok (reg_at s i) s.
Proof.
  intros H Hi. unfold reg_get, reg_at.
  destruct (seq_get_is_Some (registers s) i) as [w ->]; [| reflexivity].
  rewrite (wf_reg_len _ H). lia.
Qed.

Lemma mem_set_ok s i v :
  WF s -> 0 <= i <= 65535 -> 0 <= v <= 65535 ->
  mem_set i v s = Ok tt (set_memory (<[Z.to_nat i := v]> (memory s)) s).
Proof.
  intros H Hi Hv. unfold mem_set.
  rewrite py_index_in_range by (rewrite (wf_mem_len _ H); lia).
  fold (_has_overflown v). now rewrite _has_overflown_word.
Qed.

Lemma mem_at_set_memory_same s i v :
  WF s -> 0 <= i <= 65535 ->
  mem_at (set_memory (<[Z.to_nat i := v]> (memory s)) s) i = v.
Proof.
  intros H Hi. unfold mem_at. simpl.
  rewrite seq_get_in_range by (rewrite length_insert, (wf_mem_len _ H); lia).
  rewrite list_lookup_insert_eq; [reflexivity |].
  pose proof (wf_mem_len _ H). lia.
Qed.

Lemma WF_set_o s b : WF s -> WF (set_o b s).
Proof. intros []. now constructor. Qed.

Lemma WF_set_pc s v : 0 <= v <= 65535 -> WF s -> WF (set_pc v s).
Proof. intros ? []. now constructor. Qed.

Lemma WF_set_sp s v : 0 <= v <= 65535 -> WF s -> WF (set_sp v s).
Proof. intros ? []. now constructor. Qed.

Lemma Forall_word_insert (l : list Z) k v :
  0 <= v <= 65535 -> Forall (fun w => 0 <= w <= 65535) l ->
  Forall (fun w => 0 <= w <= 65535) (<[k := v]> l).
Proof. intros Hv Hl. now apply Forall_insert. Qed.

Lemma WF_set_memory s k v :
  0 <= v <= 65535 -> WF s -> WF (set_memory (<[k := v]> (memory s)) s).
Proof.
  intros ? []. constructor; simpl; try assumption.
  - now rewrite length_insert.
  - now apply Forall_word_insert.
Qed.

Lemma WF_set_registers s k v :
  0 <= v <= 65535 -> WF s -> WF (set_registers (<[k := v]> (registers s)) s).
Proof.
  intros ? []. constructor; simpl; try assumption.
  - now rewrite length_insert.
  - now apply Forall_word_insert.
Qed.

(** ** The invariant: every method keeps the state well formed *)

Section Keeps.
Context {A B : Type}.

Lemma keeps_ret (a : A) (Q : A -> Prop) : Q a -> keeps (ret a) Q.
Proof. intros Ha s Hs. simpl. auto. Qed.

Lemma keeps_raise (e : exn) (Q : A -> Prop) : keeps (raise e) Q.
Proof. intros s Hs. exact Hs. Qed.

Lemma keeps_bind (m : M A) (k : A -> M B) (Q : A -> Prop) (R : B -> Prop) :
  keeps m Q -> (forall a, Q a -> keeps (k a) R) -> keeps (bind m k) R.
Proof.
  intros Hm Hk s Hs. unfold bind. specialize (Hm s Hs).
  destruct (m s) as [a s' | e s']; [| exact Hm].
  destruct Hm as [Hs' Ha]. exact (Hk a Ha s' Hs').
Qed.

Lemma keeps_weaken (m : M A) (Q R : A -> Prop) :
  (forall a, Q a -> R a) -> keeps m Q -> keeps m R.
Proof.
  intros HQR Hm s Hs. specialize (Hm s Hs).
  destruct (m s); [| exact Hm]. destruct Hm. auto.
Qed.

Lemma keeps_load_global name : keeps (@load_global A name) (fun _ => False).
Proof. apply keeps_raise. Qed.

Lemma keeps_load_unbound_local name :
  keeps (@load_unbound_local A name) (fun _ => False).
Proof. apply keeps_raise. Qed.

Lemma keeps__abort msg arg (Q : A -> Prop) : keeps (_abort msg arg) Q.
Proof. apply keeps_raise. Qed.
End Keeps.

Lemma keeps_gets_pc : keeps (gets pc) word.
Proof. intros s Hs. simpl. split; [exact Hs | apply (wf_pc _ Hs)]. Qed.

Lemma keeps_gets_sp : keeps (gets sp) word.
Proof. intros s Hs. simpl. split; [exact Hs | apply (wf_sp _ Hs)]. Qed.

Lemma keeps_gets_o : keeps (gets o) any.
Proof. intros s Hs. simpl. now split. Qed.

Lemma keeps_set_o b : keeps (modify (set_o b)) any.
Proof. intros s Hs. simpl. split; [now apply WF_set_o | exact I]. Qed.

Lemma keeps_set_pc v : word v -> keeps (modify (set_pc v)) any.
Proof. intros Hv s Hs. simpl. split; [now apply WF_set_pc | exact I]. Qed.

Lemma keeps_set_sp v : word v -> keeps (modify (set_sp v)) any.
Proof. intros Hv s Hs. simpl. split; [now apply WF_set_sp | exact I]. Qed.

Lemma keeps_mem_get i : keeps (mem_get i) word.
Proof.
  intros s Hs. unfold mem_get. destruct (seq_get (memory s) i) eqn:E; [| exact Hs].
  split; [exact Hs |]. eapply seq_get_word; [apply (wf_mem_words _ Hs) | exact E].
Qed.

Lemma keeps_reg_get i : keeps (reg_get i) word.
Proof.
  intros s Hs. unfold reg_get. destruct (seq_get (registers s) i) eqn:E; [| exact Hs].
  split; [exact Hs |]. eapply seq_get_word; [apply (wf_reg_words _ Hs) | exact E].
Qed.

(** The array refuses what is not a word, so any store keeps the memory
    well formed. *)
Lemma keeps_mem_set i v : keeps (mem_set i v) any.
Proof.
  intros s Hs. unfold mem_set. destruct (py_index (memory s) i); [| exact Hs].
  destruct ((v <? 0) || (v >? _MAX_VAL)) eqn:E; [exact Hs |].
  split; [| exact I]. apply WF_set_memory; [| exact Hs].
  apply orb_false_iff in E as [E1 E2].
  apply Z.ltb_ge in E1. rewrite Z.gtb_ltb in E2. apply Z.ltb_ge in E2.
  unfold _MAX_VAL in E2. lia.
Qed.

Lemma keeps_reg_set i v : word v -> keeps (reg_set i v) any.
Proof.
  intros Hv s Hs. unfold reg_set. destruct (py_index (registers s) i); [| exact Hs].
  split; [| exact I]. now apply WF_set_registers.
Qed.

Lemma keeps__overflown v setO : keeps (_overflown v setO) word.
Proof.
  intros s Hs. simpl. split; [now apply WF_set_o | apply land_MAX_VAL_word].
Qed.

Create HintDb keeps.
#[local] Hint Resolve keeps_gets_pc keeps_gets_sp keeps_gets_o keeps_set_o
  keeps_mem_get keeps_reg_get keeps_mem_set keeps__overflown
  keeps_load_global keeps_load_unbound_local : keeps.

(** One step of a [keeps] proof: split a bind, case on a test, close a leaf. *)
Ltac keeps_step :=
  lazymatch goal with
  | |- keeps (bind _ _) _ =>
      eapply keeps_bind; [solve [eauto with keeps] | intros ? ?; cbv beta in *]
  | |- keeps (if ?c then _ else _) _ => destruct c eqn:?
  | |- keeps (match ?x with _ => _ end) _ => destruct x
  | |- keeps (ret _) _ => apply keeps_ret
  | |- keeps (raise _) _ => apply keeps_raise
  | |- keeps (_abort _ _) _ => apply keeps__abort
  | |- keeps (modify (set_pc _)) _ => apply keeps_set_pc
  | |- keeps (modify (set_sp _)) _ => apply keeps_set_sp
  | |- keeps (reg_set _ _) _ => apply keeps_reg_set
  end.

Lemma keeps__incPC : keeps _incPC any.
Proof. unfold _incPC. repeat keeps_step. assumption. Qed.

Lemma keeps__incSP : keeps _incSP any.
Proof. unfold _incSP. repeat keeps_step. assumption. Qed.

Lemma keeps__decSP : keeps _decSP any.
Proof. unfold _decSP. repeat keeps_step. assumption. Qed.

#[local] Hint Resolve keeps__incPC keeps__incSP keeps__decSP : keeps.

Ltac keeps_auto :=
  repeat first
    [ solve [exfalso; assumption]
    | keeps_step
    | eapply keeps_bind; [| intros ? ?; cbv beta in *]
    | assumption
    | exact I
    | solve [eauto with keeps] ].

(** A read returns a word, never [None]. *)
Lemma keeps__setval_read vc :
  keeps (_setval vc None) (fun r => exists z, r = Some z /\ word z).
Proof.
  unfold _setval. keeps_auto; try (eexists; split; [reflexivity | assumption]).
  - exists (Z.b2z a). split; [reflexivity |]. destruct a; unfold word; simpl; lia.
Qed.

(** A store of a word keeps the state well formed, whatever the code. *)
Lemma keeps__setval_write vc v : word v -> keeps (_setval vc (Some v)) any.
Proof.
  intros Hv. unfold _setval. keeps_auto.
Qed.

Lemma keeps__getval vc :
  keeps (_getval vc) (fun r => exists z, r = Some z /\ word z).
Proof. apply keeps__setval_read. Qed.

Lemma keeps__tick py op a b : keeps (_tick py op a b) any.
Proof.
  unfold _tick. cbv zeta. keeps_auto.
Qed.

Lemma keeps_as_int v : keeps (as_int v) any.
Proof. unfold as_int. keeps_auto. Qed.

Lemma keeps_tick_execute py v op : keeps (tick_execute py v op) any.
Proof.
  unfold tick_execute.
  eapply keeps_bind; [apply keeps__getval | intros aval _].
  eapply keeps_bind; [apply keeps__getval | intros bval _].
  eapply keeps_bind; [apply keeps_as_int | intros a _].
  eapply keeps_bind; [apply keeps_as_int | intros b _].
  eapply keeps_bind; [apply keeps__tick | intros [fval |] _].
  - eapply keeps_bind; [apply keeps__overflown | intros w Hw].
    eapply keeps_bind; [apply keeps__setval_write, Hw | intros _ _].
    now apply keeps_ret.
  - now apply keeps_ret.
Qed.

(** [tick] keeps the state well formed, on every path. *)
Lemma keeps_tick py : keeps (tick py) any.
Proof.
  unfold tick.
  eapply keeps_bind; [apply keeps_gets_pc | intros p _].
  eapply keeps_bind; [apply keeps_mem_get | intros v _].
  destruct (Z.land v _OP_PORTION =? NOP).
  - now apply keeps_ret.
  - eapply keeps_bind; [apply keeps_tick_execute | intros _ _].
    apply keeps__incPC.
Qed.

Lemma _getval_value vc s r s' :
  WF s -> _getval vc s = Ok r s' -> exists z, r = Some z.
Proof.
  intros Hs E. pose proof (keeps__getval vc s Hs) as H. rewrite E in H.
  destruct H as [_ (z & -> & _)]. eauto.
Qed.

(** ** What the counter helpers compute *)

Lemma _overflown_eq val setO s :
  _overflown val setO s = Ok (Z.land val _MAX_VAL) (set_o (_has_overflown val) s).
Proof. reflexivity. Qed.

Lemma _incPC_eq s :
  _incPC s = Ok tt (set_pc (Z.land (pc s + 1) _MAX_VAL)
                      (set_o (_has_overflown (pc s + 1)) s)).
Proof. reflexivity. Qed.

Lemma _incSP_eq s :
  _incSP s = Ok tt (set_sp (Z.land (sp s + 1) _MAX_VAL)
                      (set_o (_has_overflown (sp s + 1)) s)).
Proof. reflexivity. Qed.

Lemma _decSP_eq s :
  _decSP s = Ok tt (set_sp (Z.land (sp s - 1) _MAX_VAL)
                      (set_o (_has_overflown (sp s - 1)) s)).
Proof. reflexivity. Qed.

Lemma _has_overflown_succ p : 0 <= p <= 65535 -> _has_overflown (p + 1) = (p =? 65535).
Proof.
  intros Hp. destruct (Z.eqb_spec p 65535) as [-> | Hne]; [reflexivity |].
  apply _has_overflown_word. lia.
Qed.

Lemma _has_overflown_pred p : 0 <= p <= 65535 -> _has_overflown (p - 1) = (p =? 0).
Proof.
  intros Hp. destruct (Z.eqb_spec p 0) as [-> | Hne]; [reflexivity |].
  apply _has_overflown_word. lia.
Qed.

(** Turn the boolean tests of a dispatch chain into arithmetic. *)
Ltac bool_arith :=
  unfold in_range, REG, REG_MEM, MEM_OFFSET_REG, NUM_LIT, POP, PEEK, PUSH, SP, PC,
    O, MEM, MEM_LIT, NOP, SET, ADD, SUB, MUL, DIV, MOD, SHL, SHR, AND, BOR, XOR,
    IFE in *;
  simpl fst in *; simpl snd in *;
  repeat match goal with
    | H : _ && _ = true |- _ => apply andb_true_iff in H as [? ?]
    | H : (_ <=? _) = true |- _ => apply Z.leb_le in H
    | H : (_ <? _) = true |- _ => apply Z.ltb_lt in H
    | H : (_ =? _) = true |- _ => apply Z.eqb_eq in H
    end;
  try lia.

(** Every value code from 32 up, the short literals included, ends in the
    test [vc in NUM_LIT], whose name is not in scope. *)
Lemma _setval_from_32_NameError vc f s :
  32 <= vc -> _setval vc f s = Raise NameError s.
Proof.
  intros Hvc. unfold _setval.
  repeat match goal with
    | |- context [if ?c then _ else _] =>
        lazymatch type of c with
        | bool => destruct c eqn:?; [exfalso; bool_arith |]
        end
    end.
  reflexivity.
Qed.

(** So does every negative one. *)
Lemma _setval_negative_NameError vc f s :
  vc < 0 -> _setval vc f s = Raise NameError s.
Proof.
  intros Hvc. unfold _setval.
  repeat match goal with
    | |- context [if ?c then _ else _] =>
        lazymatch type of c with
        | bool => destruct c eqn:?; [exfalso; bool_arith |]
        end
    end.
  reflexivity.
Qed.

(** The codes 8..15 read the local [reg] before it is bound. *)
Lemma _setval_REG_MEM_UnboundLocalError vc f s :
  8 <= vc < 16 -> _setval vc f s = Raise UnboundLocalError s.
Proof.
  intros Hvc. unfold _setval.
  destruct (in_range vc REG) eqn:E1; [exfalso; bool_arith |].
  destruct (in_range vc REG_MEM) eqn:E2.
  - now destruct f.
  - exfalso. unfold in_range, REG_MEM in E2. simpl in E2.
    apply andb_false_iff in E2 as [E2 | E2]; [apply Z.leb_gt in E2 | apply Z.ltb_ge in E2]; lia.
Qed.

(** Any opcode that is not one of 0..12 reaches the comparison with [IFN],
    so the arms for [IFN], [IFG], [IFB] and the [_abort] arm are never
    entered. *)
Lemma _tick_not_upto_IFE_NameError py op a b s :
  ~ (0 <= op <= 12) -> _tick py op a b s = Raise NameError s.
Proof.
  intros Hop. unfold _tick. cbv zeta.
  repeat match goal with
    | |- context [if op =? ?c then _ else _] =>
        destruct (op =? c) eqn:?; [exfalso; bool_arith |]
    end.
  reflexivity.
Qed.

(** What the opcode handler does for [ADD] and for [IFE], the one
    conditional it can run. *)
Lemma _tick_ADD py a b s :
  _tick py ADD a b s =
    Ok (Some (Z.land (a + b) _MAX_VAL)) (set_o (_has_overflown (a + b)) s).
Proof. reflexivity. Qed.

Lemma _tick_IFE py a b s :
  _tick py IFE a b s =
    if a =? b then Ok None s
    else Ok None (set_pc (Z.land (pc s + 1) _MAX_VAL)
                    (set_o (_has_overflown (pc s + 1)) s)).
Proof. unfold _tick. simpl. unfold bind. now destruct (a =? b). Qed.

(** The opcode field is four bits wide and all sixteen values are in the
    table of [DCPU_OpCodes]. *)
Lemma opcode_in_table v : 0 <= Z.land v _OP_PORTION <= 15.
Proof.
  change _OP_PORTION with (Z.ones 4). rewrite Z.land_ones by lia.
  change (2 ^ 4) with 16. pose proof (Z.mod_pos_bound v 16 ltac:(lia)). lia.
Qed.

(** ** The value resolver *)

Lemma _incPC_WF s : WF s -> _incPC s = Ok tt (pc_advanced s).
Proof.
  intros H. rewrite _incPC_eq, land_MAX_VAL, _has_overflown_succ by apply (wf_pc _ H).
  reflexivity.
Qed.

Lemma WF_pc_advanced s : WF s -> WF (pc_advanced s).
Proof.
  intros H. apply WF_set_pc; [| now apply WF_set_o].
  pose proof (Z.mod_pos_bound (pc s + 1) 65536 ltac:(lia)). lia.
Qed.

(** C9. Reading value code 31 moves pc one word on (modulo 65536) and
    returns the memory word at the new pc; the memory is untouched.  Storing
    to value code 31 returns at once: the whole state, every memory word
    included, is as before. *)
Theorem C9_next_word_literal (s : DCPU) (f : Z) (Hwf : wf s) :
  let s' := final_state (_getval MEM_LIT s) in
  _getval MEM_LIT s = Ok (Some (mem_at s' (pc s'))) s'
  /\ pc s' = (pc s + 1) mod 65536
  /\ memory s' = memory s
  /\ _setval MEM_LIT (Some f) s = Ok None s.
Proof.
  apply wf_WF in Hwf.
  assert (E : _getval MEM_LIT s
              = Ok (Some (mem_at (pc_advanced s) (pc (pc_advanced s)))) (pc_advanced s)).
  { change (_getval MEM_LIT)
      with (_incPC ;; p <- gets pc ;; w <- mem_get p ;; ret (Some w)).
    unfold bind at 1. rewrite _incPC_WF by assumption.
    unfold bind, gets.
    rewrite mem_get_ok; [reflexivity | now apply WF_pc_advanced |].
    apply (wf_pc _ (WF_pc_advanced _ Hwf)). }
  intros s'. subst s'. rewrite E. simpl final_state.
  repeat split; reflexivity.
Qed.

(** The instance of C9 on a fresh CPU whose word 1 is 42. *)
Lemma C9_next_word_literal_witness :
  let s := loaded [0; 42] [] in
  wf s /\
  let s' := final_state (_getval MEM_LIT s) in
  _getval MEM_LIT s = Ok (Some (mem_at s' (pc s'))) s'
  /\ pc s' = (pc s + 1) mod 65536
  /\ memory s' = memory s
  /\ _setval MEM_LIT (Some 7) s = Ok None s.
Proof.
  split; [vm_compute; reflexivity |].
  apply (C9_next_word_literal (loaded [0; 42] []) 7). vm_compute. reflexivity.
Defined.

(** C8. Storing a word through PUSH and reading it back through POP gives
    the word back and leaves sp where it started, from any well-formed
    state. *)
Theorem C8_push_pop_roundtrip (s : DCPU) (v : Z)
  (Hwf : wf s) (Hv : 0 <= v <= 65535) :
  exists s1 s2,
    _setval PUSH (Some v) s = Ok None s1
    /\ _getval POP s1 = Ok (Some v) s2
    /\ sp s2 = sp s.
Proof.
  apply wf_WF in Hwf.
  pose proof (wf_sp _ Hwf) as Hsp.
  set (top := Z.land (sp s - 1) _MAX_VAL).
  assert (Htop : 0 <= top <= 65535) by apply land_MAX_VAL_word.
  set (s0 := set_sp top (set_o (_has_overflown (sp s - 1)) s)).
  assert (Hs0 : WF s0) by (apply WF_set_sp; [assumption | now apply WF_set_o]).
  set (s1 := set_memory (<[Z.to_nat top := v]> (memory s0)) s0).
  assert (Hs1 : WF s1) by now apply WF_set_memory.
  exists s1, (set_sp (Z.land (top + 1) _MAX_VAL) (set_o (_has_overflown (top + 1)) s1)).
  split; [| split].
  - change (_setval PUSH (Some v))
      with (_decSP ;; p <- gets sp ;; mem_set p v ;; ret (@None Z)).
    unfold bind at 1. rewrite _decSP_eq. fold top. fold s0.
    unfold bind, gets. change (sp s0) with top.
    rewrite mem_set_ok by assumption. reflexivity.
  - change (_getval POP)
      with (vc <- (p <- gets sp ;; mem_get p) ;; _incSP ;; ret (Some vc)).
    unfold bind, gets. change (sp s1) with top.
    rewrite mem_get_ok by assumption.
    rewrite _incSP_eq. change (sp s1) with top.
    unfold s1. rewrite mem_at_set_memory_same by assumption. reflexivity.
  - simpl. unfold top. rewrite !land_MAX_VAL.
    rewrite Zplus_mod_idemp_l. replace (sp s - 1 + 1) with (sp s) by lia.
    apply Z.mod_small. lia.
Qed.

(** The instance of C8 on a fresh CPU: sp wraps from 0 to 65535 and back. *)
Lemma C8_push_pop_roundtrip_witness :
  wf __init__ /\ 0 <= 42 <= 65535 /\
  exists s1 s2,
    _setval PUSH (Some 42) __init__ = Ok None s1
    /\ _getval POP s1 = Ok (Some 42) s2
    /\ sp s2 = sp __init__.
Proof.
  split; [vm_compute; reflexivity |]. split; [lia |].
  apply (C8_push_pop_roundtrip __init__ 42); [vm_compute; reflexivity | lia].
Defined.

(** ** The overflow flag *)

(** C10. [_overflown] assigns the flag on every call, in any state and
    whatever [setO] is; so on a well-formed CPU each counter helper leaves
    the flag saying whether that counter wrapped.  For [tick]: on opcode 0 it
    returns at once; otherwise, if the cycle raises before its closing
    [_incPC], [tick] raises the same; and if the cycle gets there, in a state
    [s1], [tick] returns [_incPC s1] with the flag equal to
    (pc of [s1] == 65535), whatever the opcode was. *)
Theorem C10_overflow_flag_follows_counters
  (py : pyver) (s : DCPU) (val : Z) (setO : bool) (Hwf : wf s) :
  (forall s0, _overflown val setO s0
              = Ok (Z.land val _MAX_VAL) (set_o (_has_overflown val) s0))
  /\ o (final_state (_incPC s)) = (pc s =? 65535)
  /\ o (final_state (_incSP s)) = (sp s =? 65535)
  /\ o (final_state (_decSP s)) = (sp s =? 0)
  /\ let v := mem_at s (pc s) in
     let op := Z.land v _OP_PORTION in
     if op =? NOP then tick py s = Ok tt s
     else match tick_execute py v op s with
          | Ok _ s1 =>
              tick py s = _incPC s1
              /\ outcome (tick py s) = None
              /\ o (final_state (tick py s)) = (pc s1 =? 65535)
          | Raise e s1 => tick py s = Raise e s1
          end.
Proof.
  apply wf_WF in Hwf.
  split; [reflexivity |].
  split; [rewrite _incPC_eq; simpl; apply _has_overflown_succ, (wf_pc _ Hwf) |].
  split; [rewrite _incSP_eq; simpl; apply _has_overflown_succ, (wf_sp _ Hwf) |].
  split; [rewrite _decSP_eq; simpl; apply _has_overflown_pred, (wf_sp _ Hwf) |].
  intros v op.
  pose proof (keeps_tick_execute py v op s Hwf) as Hex.
  assert (Etick : tick py s =
            if op =? NOP then Ok tt s else (tick_execute py v op ;; _incPC) s).
  { unfold tick. unfold bind at 1, gets. unfold bind at 1.
    rewrite mem_get_ok by (assumption || apply (wf_pc _ Hwf)).
    fold v. fold op. now destruct (op =? NOP). }
  rewrite Etick. destruct (op =? NOP); [reflexivity |].
  unfold bind.
  destruct (tick_execute py v op s) as [[] s1 | e s1]; [| reflexivity].
  destruct Hex as [Hs1 _].
  split; [reflexivity |]. rewrite _incPC_eq. split; [reflexivity |].
  simpl. apply _has_overflown_succ, (wf_pc _ Hs1).
Qed.

(** The instance of C10 on [ADD A, A] with A = 40000 and pc = 0: the sum
    overflows, the cycle reaches its closing advance, and the flag comes
    back false. *)
Lemma C10_overflow_flag_follows_counters_witness :
  let s := loaded [encode ADD 0 0] [40000] in
  wf s
  /\ o (final_state (tick Py2 s)) = false
  /\ (forall s0, _overflown 80000 true s0
                 = Ok (Z.land 80000 _MAX_VAL) (set_o (_has_overflown 80000) s0))
  /\ o (final_state (_incPC s)) = (pc s =? 65535)
  /\ o (final_state (_incSP s)) = (sp s =? 65535)
  /\ o (final_state (_decSP s)) = (sp s =? 0)
  /\ let v := mem_at s (pc s) in
     let op := Z.land v _OP_PORTION in
     if op =? NOP then tick Py2 s = Ok tt s
     else match tick_execute Py2 v op s with
          | Ok _ s1 =>
              tick Py2 s = _incPC s1
              /\ outcome (tick Py2 s) = None
              /\ o (final_state (tick Py2 s)) = (pc s1 =? 65535)
          | Raise e s1 => tick Py2 s = Raise e s1
          end.
Proof.
  split; [vm_compute; reflexivity |].
  split; [vm_compute; reflexivity |].
  apply (C10_overflow_flag_follows_counters Py2
           (loaded [encode ADD 0 0] [40000]) 80000 true).
  vm_compute. reflexivity.
Defined.

(** ** What [tick] decodes, and the operands it can resolve *)

(** The operand fields are masked but not shifted: field a arrives as a
    multiple of 16, field b as a multiple of 1024. *)
Lemma masked_field v mask k :
  0 <= mask -> 0 <= k -> Z.land mask (Z.ones k) = 0 ->
  0 <= Z.land v mask /\ Z.land v mask mod 2 ^ k = 0.
Proof.
  intros Hm Hk Hlow. split.
  - apply Z.land_nonneg. now right.
  - rewrite <- Z.land_ones by assumption.
    rewrite <- Z.land_assoc, Hlow. apply Z.land_0_r.
Qed.

Lemma AV_field_values v :
  Z.land v _AV_PORTION = 0 \/ Z.land v _AV_PORTION = 16 \/ 32 <= Z.land v _AV_PORTION.
Proof.
  destruct (masked_field v _AV_PORTION 4) as [H0 Hmod]; [unfold _AV_PORTION; lia | lia | reflexivity |].
  change (2 ^ 4) with 16 in Hmod.
  pose proof (Z.div_mod (Z.land v _AV_PORTION) 16 ltac:(lia)) as Hdm.
  rewrite Hmod in Hdm.
  assert (0 <= Z.land v _AV_PORTION / 16) by (apply Z.div_pos; lia).
  lia.
Qed.

Lemma BV_field_values v :
  Z.land v _BV_PORTION = 0 \/ 32 <= Z.land v _BV_PORTION.
Proof.
  destruct (masked_field v _BV_PORTION 10) as [H0 Hmod]; [unfold _BV_PORTION; lia | lia | reflexivity |].
  change (2 ^ 10) with 1024 in Hmod.
  pose proof (Z.div_mod (Z.land v _BV_PORTION) 1024 ltac:(lia)) as Hdm.
  rewrite Hmod in Hdm.
  assert (0 <= Z.land v _BV_PORTION / 1024) by (apply Z.div_pos; lia).
  lia.
Qed.

(** Reading and storing through a register code. *)
Lemma _getval_REG s vc :
  WF s -> 0 <= vc < 8 -> _getval vc s = Ok (Some (reg_at s vc)) s.
Proof.
  intros Hs Hvc. unfold _getval, _setval.
  replace (in_range vc REG) with true
    by (symmetry; apply andb_true_iff; split; [apply Z.leb_le | apply Z.ltb_lt]; simpl; lia).
  unfold bind. now rewrite reg_get_ok.
Qed.

Lemma _setval_REG s vc v :
  WF s -> 0 <= vc < 8 ->
  _setval vc (Some v) s
    = Ok None (set_registers (<[Z.to_nat vc := v]> (registers s)) s).
Proof.
  intros Hs Hvc. unfold _setval.
  replace (in_range vc REG) with true
    by (symmetry; apply andb_true_iff; split; [apply Z.leb_le | apply Z.ltb_lt]; simpl; lia).
  unfold bind, reg_set.
  rewrite py_index_in_range by (rewrite (wf_reg_len _ Hs); lia). reflexivity.
Qed.

Lemma _setval_MEM_OFFSET_REG_prefix s vc (k : Z -> M (option Z)) :
  WF s -> 16 <= vc < 24 ->
  (_incPC ;; p <- gets pc ;; next_mem <- mem_get p ;;
   reg <- reg_get (vc - range_start MEM_OFFSET_REG) ;;
   a <- _overflown (reg + next_mem) true ;; k a) s
  = k (Z.land (offset_address s vc) _MAX_VAL) (offset_resolved s vc).
Proof.
  intros Hs Hvc. pose proof (WF_pc_advanced _ Hs) as Hs1.
  unfold bind at 1. rewrite _incPC_WF by assumption.
  unfold bind at 1, gets. unfold bind at 1.
  rewrite mem_get_ok by (assumption || apply (wf_pc _ Hs1)).
  unfold bind at 1.
  rewrite reg_get_ok by (assumption || (change (range_start MEM_OFFSET_REG) with 16; lia)).
  unfold bind at 1. rewrite _overflown_eq.
  reflexivity.
Qed.

Lemma in_range_MEM_OFFSET_REG vc :
  16 <= vc < 24 -> in_range vc REG = false /\ in_range vc REG_MEM = false
                   /\ in_range vc MEM_OFFSET_REG = true.
Proof.
  intros H. unfold in_range, REG, REG_MEM, MEM_OFFSET_REG. simpl.
  repeat split.
  - apply andb_false_iff. right. apply Z.ltb_ge. lia.
  - apply andb_false_iff. right. apply Z.ltb_ge. lia.
  - apply andb_true_iff. split; [apply Z.leb_le | apply Z.ltb_lt]; lia.
Qed.

(** A read through a code 16..23 advances pc once, reads the word at the new
    pc once, and returns the memory word at (register + that word) mod
    65536. *)
Lemma _getval_MEM_OFFSET_REG s vc :
  WF s -> 16 <= vc < 24 ->
  _getval vc s
    = Ok (Some (mem_at s (Z.land (offset_address s vc) _MAX_VAL)))
         (offset_resolved s vc).
Proof.
  intros Hs Hvc. unfold _getval, _setval.
  destruct (in_range_MEM_OFFSET_REG vc Hvc) as (-> & -> & ->).
  rewrite _setval_MEM_OFFSET_REG_prefix by assumption.
  unfold bind.
  rewrite mem_get_ok; [reflexivity | | apply land_MAX_VAL_word].
  apply WF_set_o, WF_pc_advanced, Hs.
Qed.

(** A store through the same code does all of that again before it writes:
    it is resolved from the state it is given, not from the read before. *)
Lemma _setval_MEM_OFFSET_REG s vc v :
  WF s -> 16 <= vc < 24 -> 0 <= v <= 65535 ->
  _setval vc (Some v) s
    = Ok None
        (set_memory
           (<[Z.to_nat (Z.land (offset_address s vc) _MAX_VAL) := v]> (memory s))
           (offset_resolved s vc)).
Proof.
  intros Hs Hvc Hv. unfold _setval.
  destruct (in_range_MEM_OFFSET_REG vc Hvc) as (-> & -> & ->).
  rewrite _setval_MEM_OFFSET_REG_prefix by assumption.
  unfold bind.
  rewrite mem_set_ok; [reflexivity | | apply land_MAX_VAL_word | assumption].
  apply WF_set_o, WF_pc_advanced, Hs.
Qed.

(** [tick] on a word whose opcode field is 0 returns before anything else:
    the state is untouched, pc included. *)
Lemma tick_NOP py s :
  WF s -> Z.land (mem_at s (pc s)) _OP_PORTION = NOP -> tick py s = Ok tt s.
Proof.
  intros Hs Hop. unfold tick, bind, gets.
  rewrite mem_get_ok by (assumption || apply (wf_pc _ Hs)).
  now rewrite Hop.
Qed.

(** Past the [NOP] test, [tick] is [tick_execute] followed by [_incPC]. *)
Lemma tick_not_NOP py s :
  WF s -> Z.land (mem_at s (pc s)) _OP_PORTION <> NOP ->
  tick py s
  = (tick_execute py (mem_at s (pc s)) (Z.land (mem_at s (pc s)) _OP_PORTION)
     ;; _incPC) s.
Proof.
  intros Hs Hop. unfold tick. unfold bind at 1, gets. unfold bind at 1.
  rewrite mem_get_ok by (assumption || apply (wf_pc _ Hs)).
  destruct (Z.eqb_spec (Z.land (mem_at s (pc s)) _OP_PORTION) NOP) as [E | _];
    [contradiction | reflexivity].
Qed.

(** Whenever field b is not 0, or field a is neither 0 nor 1, an operand
    code of 32 or more reaches [_getval] and the instruction raises
    NameError: the only operands [tick] can resolve are register A (field 0)
    and, for operand a, [next word + A] (field 1, seen as code 16). *)
Lemma tick_fields_NameError py s :
  WF s ->
  let v := mem_at s (pc s) in
  Z.land v _OP_PORTION <> NOP ->
  Z.land v _BV_PORTION <> 0 \/ (Z.land v _AV_PORTION <> 0 /\ Z.land v _AV_PORTION <> 16) ->
  outcome (tick py s) = Some NameError.
Proof.
  intros Hs v Hop Hfields. rewrite tick_not_NOP by assumption. fold v.
  unfold bind at 1. unfold tick_execute. unfold bind at 1.
  destruct (AV_field_values v) as [Ea | [Ea | Ea]].
  - rewrite Ea. rewrite _getval_REG by (assumption || lia).
    unfold bind at 1.
    destruct (BV_field_values v) as [Eb | Eb]; [lia |].
    unfold _getval. now rewrite _setval_from_32_NameError.
  - rewrite Ea. rewrite _getval_MEM_OFFSET_REG by (assumption || lia).
    unfold bind at 1.
    destruct (BV_field_values v) as [Eb | Eb]; [lia |].
    unfold _getval. now rewrite _setval_from_32_NameError.
  - unfold _getval. now rewrite _setval_from_32_NameError.
Qed.

(** ** The instruction cycle *)

(** With both operand fields 0 the two operands are register A, and the
    cycle is the opcode handler on (A, A) followed by the store. *)
Lemma tick_execute_A_A py v op s :
  WF s -> Z.land v _AV_PORTION = 0 -> Z.land v _BV_PORTION = 0 ->
  tick_execute py v op s
  = (fval <- _tick py op (reg_at s 0) (reg_at s 0) ;;
     match fval with
     | Some fval => fval <- _overflown fval true ;; _setval 0 (Some fval) ;; ret tt
     | None => ret tt
     end) s.
Proof.
  intros Hs Ea Eb. unfold tick_execute. rewrite Ea, Eb.
  unfold bind at 1. rewrite _getval_REG by (assumption || lia).
  unfold bind at 1. rewrite _getval_REG by (assumption || lia).
  reflexivity.
Qed.

(** When operand a is register A and field b is not 0, the NameError comes
    before anything has changed. *)
Lemma tick_A_bad_b py s :
  WF s ->
  let v := mem_at s (pc s) in
  Z.land v _OP_PORTION <> NOP -> Z.land v _AV_PORTION = 0 -> Z.land v _BV_PORTION <> 0 ->
  tick py s = Raise NameError s.
Proof.
  intros Hs v Hop Ea Eb. rewrite tick_not_NOP by assumption. fold v.
  unfold bind at 1. unfold tick_execute. rewrite Ea.
  unfold bind at 1. rewrite _getval_REG by (assumption || lia).
  unfold bind at 1.
  destruct (BV_field_values v) as [E | E]; [contradiction |].
  unfold _getval. now rewrite _setval_from_32_NameError.
Qed.

(** The conditionals after [IFE], on register operands: NameError, nothing
    changed. *)
Lemma tick_A_A_after_IFE py s :
  WF s ->
  let v := mem_at s (pc s) in
  12 < Z.land v _OP_PORTION -> Z.land v _AV_PORTION = 0 -> Z.land v _BV_PORTION = 0 ->
  tick py s = Raise NameError s.
Proof.
  intros Hs v Hop Ea Eb.
  rewrite tick_not_NOP by (assumption || (fold v; unfold NOP; lia)). fold v.
  unfold bind at 1. rewrite tick_execute_A_A by assumption.
  unfold bind at 1. rewrite _tick_not_upto_IFE_NameError by lia. reflexivity.
Qed.

Lemma wf_loaded_WF prog regs : wfb (loaded prog regs) = true -> WF (loaded prog regs).
Proof. apply wf_WF. Qed.
(** ** The instruction cycle on concrete programs *)

(** [SET] copies nothing: [b = a] rebinds the local [b] and the handler
    returns [a] itself. *)
Lemma _tick_SET_ignores_b py a b s :
  _tick py SET a b s = Ok (Some (Z.land a _MAX_VAL)) (set_o (_has_overflown a) s).
Proof. reflexivity. Qed.

(** C1. On a fresh CPU whose word 0 is [SET A, 5] (opcode 1, field a = 0,
    field b = 32 + 5), [tick] raises NameError while resolving operand b and
    leaves the CPU as it was: register A is 0 and pc is 0. *)
Theorem C1_set_literal_raises_NameError (py : pyver) :
  let s := loaded [encode SET 0 (32 + 5)] [] in
  tick py s = Raise NameError s /\ reg_at s 0 = 0 /\ pc s = 0.
Proof.
  intros s. split; [| split; vm_compute; reflexivity].
  apply tick_A_bad_b.
  - apply wf_loaded_WF. vm_compute. reflexivity.
  - vm_compute. discriminate.
  - vm_compute. reflexivity.
  - vm_compute. discriminate.
Qed.

(** C2. On [ADD [next word + A], A] with A = 7 and the words 100 and 200
    after the instruction, operand a is read at address 107 (pc moves to 1),
    and the store resolves the code again: pc moves to 2, the sum goes to
    address 207, and the cycle ends with pc = 3 and address 107 untouched. *)
Theorem C2_store_resolves_operand_again (py : pyver) :
  let s := loaded [encode ADD 1 0; 100; 200] [7] in
  let r := tick py s in
  outcome r = None
  /\ pc (final_state r) = 3
  /\ mem_at (final_state r) 107 = 0
  /\ mem_at (final_state r) 207 = 7.
Proof. destruct py; vm_compute; repeat split; reflexivity. Qed.

(** The same at the level of the resolver, for every code 16..23 and every
    well-formed state: a store that follows a read has moved pc two words. *)
Lemma store_after_read_advances_again s vc v :
  WF s -> 16 <= vc < 24 -> 0 <= v <= 65535 ->
  pc (final_state (_setval vc (Some v) (final_state (_getval vc s))))
  = ((pc s + 1) mod 65536 + 1) mod 65536.
Proof.
  intros Hs Hvc Hv. rewrite _getval_MEM_OFFSET_REG by assumption. simpl final_state.
  rewrite _setval_MEM_OFFSET_REG; [reflexivity | | assumption | assumption].
  apply WF_set_o, WF_pc_advanced, Hs.
Qed.

(** [ADD A, A] in general: the register gets the sum modulo 65536, and the
    flag says whether pc wrapped, not whether the sum did. *)
Lemma tick_ADD_A_A py s :
  WF s -> mem_at s (pc s) = encode ADD 0 0 ->
  tick py s
  = Ok tt (pc_advanced
             (set_registers
                (<[0%nat := (reg_at s 0 + reg_at s 0) mod 65536]> (registers s)) s)).
Proof.
  intros Hs Hw.
  rewrite tick_not_NOP by (assumption || (rewrite Hw; discriminate)).
  rewrite Hw. unfold bind at 1. unfold tick_execute.
  change (Z.land (encode ADD 0 0) _AV_PORTION) with 0.
  change (Z.land (encode ADD 0 0) _BV_PORTION) with 0.
  change (Z.land (encode ADD 0 0) _OP_PORTION) with ADD.
  unfold bind at 1. rewrite _getval_REG by (assumption || lia).
  unfold bind at 1. rewrite _getval_REG by (assumption || lia).
  unfold bind at 1. simpl as_int. unfold ret at 1.
  unfold bind at 1. unfold ret at 1.
  unfold bind at 1. rewrite _tick_ADD.
  unfold bind at 1. rewrite _overflown_eq.
  unfold bind at 1.
  rewrite _setval_REG by (try lia; now repeat apply WF_set_o).
  unfold ret at 1.
  rewrite _incPC_WF.
  - rewrite (land_MAX_VAL_id (Z.land _ _)) by apply land_MAX_VAL_word.
    rewrite land_MAX_VAL. reflexivity.
  - apply WF_set_registers; [apply land_MAX_VAL_word | now repeat apply WF_set_o].
Qed.

(** C3. [ADD A, A] with A = 40000: the sum 80000 does not fit 16 bits, the
    register gets 80000 mod 65536 = 14464, and the flag is false when [tick]
    returns. *)
Theorem C3_add_overflow_flag_lost (py : pyver) :
  let s := loaded [encode ADD 0 0] [40000] in
  let r := tick py s in
  outcome r = None
  /\ reg_at (final_state r) 0 = (40000 + 40000) mod 65536
  /\ 40000 + 40000 > 65535
  /\ o (final_state r) = false.
Proof. destruct py; vm_compute; repeat split; reflexivity. Qed.

(** C4, the claim refuted: [DIV] by zero raises, in the handler under either
    Python and so in [tick] ([DIV A, A] on a fresh CPU divides 0 by 0). *)
Lemma C4_div_by_zero_raises :
  outcome (_tick Py2 DIV 7 0 __init__) = Some ZeroDivisionError
  /\ outcome (_tick Py3 DIV 7 0 __init__) = Some ZeroDivisionError
  /\ outcome (tick Py2 (loaded [encode DIV 0 0] [])) = Some ZeroDivisionError
  /\ outcome (tick Py3 (loaded [encode DIV 0 0] [])) = Some ZeroDivisionError.
Proof. vm_compute. repeat split. Qed.

(** C4, amended. For 16-bit a and b, [DIV] with b = 0 raises
    ZeroDivisionError and leaves the state, flag included, as the handler
    found it; with b <> 0 and the integer [/] of Python 2 the handler
    returns floor(a / b) and sets the flag to false. *)
Theorem C4_div_raises_on_zero_else_floor (a b : Z) (s : DCPU)
  (Ha : 0 <= a <= 65535) (Hb : 0 <= b <= 65535) :
  (forall py, _tick py DIV a 0 s = Raise ZeroDivisionError s)
  /\ _tick Py2 DIV a b s
     = if b =? 0 then Raise ZeroDivisionError s
       else Ok (Some (a / b)) (set_o false s).
Proof.
  split; [intros py; reflexivity |].
  unfold _tick. simpl. destruct (Z.eqb_spec b 0) as [-> | Hb0]; [reflexivity |].
  unfold bind. rewrite _overflown_eq. unfold ret.
  assert (Hq : 0 <= a / b <= 65535).
  { split; [apply Z.div_pos; lia |].
    apply Z.le_trans with a; [| lia]. apply Z.div_le_upper_bound; nia. }
  now rewrite land_MAX_VAL_id, _has_overflown_word.
Qed.

(** The instance of C4 on 7 / 2, and on 7 / 0. *)
Lemma C4_div_raises_on_zero_else_floor_witness :
  0 <= 7 <= 65535 /\ 0 <= 2 <= 65535 /\
  (forall py, _tick py DIV 7 0 __init__ = Raise ZeroDivisionError __init__)
  /\ _tick Py2 DIV 7 2 __init__
     = if 2 =? 0 then Raise ZeroDivisionError __init__
       else Ok (Some (7 / 2)) (set_o false __init__).
Proof.
  split; [lia |]. split; [lia |].
  apply (C4_div_raises_on_zero_else_floor 7 2 __init__); lia.
Defined.

(** Under Python 3 the quotient is a float and the mask in [_overflown]
    rejects it, after the flag has been assigned. *)
Lemma _tick_DIV_Py3 a b s :
  0 <= a <= 65535 -> 0 < b <= 65535 ->
  _tick Py3 DIV a b s = Raise TypeError (set_o false s).
Proof.
  intros Ha Hb. unfold _tick. simpl.
  destruct (Z.eqb_spec b 0) as [-> | _]; [lia |].
  unfold bind, modify, raise.
  replace (quotient_has_overflown a b) with false; [reflexivity |].
  symmetry. unfold quotient_has_overflown, _MAX_VAL.
  apply orb_false_iff. split; [apply Z.ltb_ge | apply Z.ltb_ge]; [| lia].
  apply Z.mul_nonneg_nonneg; lia.
Qed.

(** C5. On a fresh CPU (word 0 is 0, the reserved opcode) [tick] returns
    with the state untouched: pc is still 0, it has not moved to 1. *)
Theorem C5_nop_does_not_advance_pc (py : pyver) :
  tick py __init__ = Ok tt __init__ /\ pc __init__ = 0.
Proof.
  split; [| reflexivity]. apply tick_NOP.
  - apply wf_WF. vm_compute. reflexivity.
  - vm_compute. reflexivity.
Qed.

(** [IFE] is the conditional that runs.  [IFE A, A] compares A with itself
    and does not skip; [IFE [next word + A], A] with A = 7 and next word 5
    compares memory[12] = 0 with 7 and skips: one advance for the operand
    word, one for the skip, one to close the cycle. *)
Example tick_IFE_equal (py : pyver) :
  let r := tick py (loaded [encode IFE 0 0] [7]) in
  outcome r = None /\ pc (final_state r) = 1 /\ reg_at (final_state r) 0 = 7.
Proof. destruct py; vm_compute; repeat split; reflexivity. Qed.

Example tick_IFE_different (py : pyver) :
  let r := tick py (loaded [encode IFE 1 0; 5] [7]) in
  outcome r = None /\ pc (final_state r) = 3 /\ mem_at (final_state r) 12 = 0.
Proof. destruct py; vm_compute; repeat split; reflexivity. Qed.

(** C6. [IFN A, A], [IFG A, A] and [IFB A, A] on a fresh CPU (A = 0, so each
    condition for skipping holds) raise NameError and leave pc at 0. *)
Theorem C6_ifn_ifg_ifb_raise_NameError (py : pyver) :
  let run op := tick py (loaded [encode op 0 0] []) in
  run IFN = Raise NameError (loaded [encode IFN 0 0] [])
  /\ run IFG = Raise NameError (loaded [encode IFG 0 0] [])
  /\ run IFB = Raise NameError (loaded [encode IFB 0 0] [])
  /\ pc (final_state (run IFN)) = 0.
Proof.
  assert (H : forall op, 12 < op < 16 ->
            tick py (loaded [encode op 0 0] []) = Raise NameError (loaded [encode op 0 0] [])).
  { intros op Hop.
    assert (Hs : WF (loaded [encode op 0 0] [])).
    { assert (op = 13 \/ op = 14 \/ op = 15) as [-> | [-> | ->]] by lia;
        apply wf_loaded_WF; vm_compute; reflexivity. }
    assert (op = 13 \/ op = 14 \/ op = 15) as [-> | [-> | ->]] by lia;
      (apply tick_A_A_after_IFE; [exact Hs | vm_compute; reflexivity ..]). }
  intros run. unfold run. rewrite !H by (unfold IFN, IFG, IFB; lia). repeat split.
Qed.


(** ** Further properties of the opcode handler *)

Lemma word_sub_overflown a b :
  0 <= a <= 65535 -> 0 <= b <= 65535 -> _has_overflown (a - b) = (a <? b).
Proof.
  intros Ha Hb. destruct (Z.ltb_spec a b) as [H | H].
  - apply _has_overflown_iff. lia.
  - apply _has_overflown_word. lia.
Qed.

Lemma _has_overflown_nonneg v : 0 <= v -> _has_overflown v = (65535 <? v).
Proof.
  intros Hv. destruct (Z.ltb_spec 65535 v) as [H | H].
  - apply _has_overflown_iff. lia.
  - apply _has_overflown_word. lia.
Qed.

(** X15. [SUB] on 16-bit operands returns (a - b) mod 65536 and sets the
    flag exactly when a < b (a borrow). *)
Theorem X_tick_SUB (py : pyver) (a b : Z) (s : DCPU)
  (Ha : 0 <= a <= 65535) (Hb : 0 <= b <= 65535) :
  _tick py SUB a b s = Ok (Some ((a - b) mod 65536)) (set_o (a <? b) s).
Proof.
  change (_tick py SUB a b s)
    with (Ok (Some (Z.land (a - b) _MAX_VAL)) (set_o (_has_overflown (a - b)) s)).
  now rewrite land_MAX_VAL, word_sub_overflown.
Qed.

Lemma X_tick_SUB_witness :
  0 <= 0 <= 65535 /\ 0 <= 1 <= 65535 /\
  _tick Py3 SUB 0 1 __init__ = Ok (Some ((0 - 1) mod 65536)) (set_o (0 <? 1) __init__).
Proof.
  split; [lia |]. split; [lia |]. apply (X_tick_SUB Py3 0 1 __init__); lia.
Defined.

(** X16. [MUL] on 16-bit operands returns (a * b) mod 65536 and sets the
    flag exactly when the product exceeds 65535. *)
Theorem X_tick_MUL (py : pyver) (a b : Z) (s : DCPU)
  (Ha : 0 <= a <= 65535) (Hb : 0 <= b <= 65535) :
  _tick py MUL a b s = Ok (Some ((a * b) mod 65536)) (set_o (65535 <? a * b) s).
Proof.
  change (_tick py MUL a b s)
    with (Ok (Some (Z.land (a * b) _MAX_VAL)) (set_o (_has_overflown (a * b)) s)).
  rewrite land_MAX_VAL, _has_overflown_nonneg; [reflexivity |].
  apply Z.mul_nonneg_nonneg; lia.
Qed.

Lemma X_tick_MUL_witness :
  0 <= 300 <= 65535 /\ 0 <= 300 <= 65535 /\
  _tick Py2 MUL 300 300 __init__
  = Ok (Some ((300 * 300) mod 65536)) (set_o (65535 <? 300 * 300) __init__).
Proof.
  split; [lia |]. split; [lia |]. apply (X_tick_MUL Py2 300 300 __init__); lia.
Defined.

(** X17. [MOD] by zero raises ZeroDivisionError and leaves the state as it
    was; otherwise, on 16-bit operands, it returns a mod b and clears the
    flag. *)
Theorem X_tick_MOD (py : pyver) (a b : Z) (s : DCPU)
  (Ha : 0 <= a <= 65535) (Hb : 0 <= b <= 65535) :
  _tick py MOD a b s
  = if b =? 0 then Raise ZeroDivisionError s
    else Ok (Some (a mod b)) (set_o false s).
Proof.
  unfold _tick. simpl. destruct (Z.eqb_spec b 0) as [-> | Hb0]; [reflexivity |].
  unfold bind. rewrite _overflown_eq. unfold ret.
  pose proof (Z.mod_pos_bound a b ltac:(lia)) as Hm.
  rewrite land_MAX_VAL_id, _has_overflown_word by lia. reflexivity.
Qed.

Lemma X_tick_MOD_witness :
  0 <= 7 <= 65535 /\ 0 <= 0 <= 65535 /\
  _tick Py3 MOD 7 0 __init__
  = if 0 =? 0 then Raise ZeroDivisionError __init__
    else Ok (Some (7 mod 0)) (set_o false __init__).
Proof.
  split; [lia |]. split; [lia |]. apply (X_tick_MOD Py3 7 0 __init__); lia.
Defined.

(** X18. The shifts on 16-bit operands: [SHL] returns (a * 2^b) mod 65536
    and sets the flag exactly when a * 2^b exceeds 65535; [SHR] returns
    floor(a / 2^b) and always clears the flag, whatever bits fall off. *)
Theorem X_tick_shifts (py : pyver) (a b : Z) (s : DCPU)
  (Ha : 0 <= a <= 65535) (Hb : 0 <= b <= 65535) :
  _tick py SHL a b s
  = Ok (Some ((a * 2 ^ b) mod 65536)) (set_o (65535 <? a * 2 ^ b) s)
  /\ _tick py SHR a b s = Ok (Some (a / 2 ^ b)) (set_o false s).
Proof.
  assert (Hp : 0 < 2 ^ b) by (apply Z.pow_pos_nonneg; lia).
  split.
  - unfold _tick. simpl.
    destruct (Z.ltb_spec b 0) as [H | _]; [lia |].
    unfold bind. rewrite _overflown_eq. unfold ret.
    rewrite Z.shiftl_mul_pow2 by lia.
    rewrite land_MAX_VAL, _has_overflown_nonneg; [reflexivity |].
    apply Z.mul_nonneg_nonneg; lia.
  - unfold _tick. simpl.
    destruct (Z.ltb_spec b 0) as [H | _]; [lia |].
    unfold bind. rewrite _overflown_eq. unfold ret.
    rewrite Z.shiftr_div_pow2 by lia.
    assert (Hq : 0 <= a / 2 ^ b <= 65535).
    { split; [apply Z.div_pos; lia |].
      apply Z.le_trans with a; [| lia]. apply Z.div_le_upper_bound; [lia | nia]. }
    now rewrite land_MAX_VAL_id, _has_overflown_word.
Qed.

Lemma X_tick_shifts_witness :
  0 <= 32769 <= 65535 /\ 0 <= 1 <= 65535 /\
  (_tick Py2 SHL 32769 1 __init__
   = Ok (Some ((32769 * 2 ^ 1) mod 65536)) (set_o (65535 <? 32769 * 2 ^ 1) __init__)
   /\ _tick Py2 SHR 32769 1 __init__ = Ok (Some (32769 / 2 ^ 1)) (set_o false __init__)).
Proof.
  split; [lia |]. split; [lia |]. apply (X_tick_shifts Py2 32769 1 __init__); lia.
Defined.

Lemma word_testbit_high a n : 0 <= a <= 65535 -> 16 <= n -> Z.testbit a n = false.
Proof.
  intros Ha Hn. rewrite <- (Z.mod_small a (2 ^ 16)) by (change (2 ^ 16) with 65536; lia).
  apply Z.mod_pow2_bits_high. lia.
Qed.

Lemma low_bits_word x :
  (forall n, 16 <= n -> Z.testbit x n = false) -> 0 <= x <= 65535.
Proof.
  intros H. replace x with (Z.land x _MAX_VAL); [apply land_MAX_VAL_word |].
  apply Z.bits_inj'. intros n Hn. rewrite Z.land_spec.
  change _MAX_VAL with (Z.ones 16). rewrite Z.testbit_ones_nonneg by lia.
  destruct (Z.ltb_spec n 16) as [Hlt | Hge].
  - replace (0 <=? n) with true by (symmetry; apply Z.leb_le; lia).
    apply andb_true_r.
  - rewrite H by assumption. apply andb_false_l.
Qed.

(** X19. [AND], [BOR] and [XOR] on 16-bit operands return the bitwise
    result, which is again a 16-bit value, and leave the whole state, the
    overflow flag included, as it was. *)
Theorem X_tick_bitwise (py : pyver) (a b : Z) (s : DCPU)
  (Ha : 0 <= a <= 65535) (Hb : 0 <= b <= 65535) :
  (_tick py AND a b s = Ok (Some (Z.land a b)) s /\ 0 <= Z.land a b <= 65535)
  /\ (_tick py BOR a b s = Ok (Some (Z.lor a b)) s /\ 0 <= Z.lor a b <= 65535)
  /\ (_tick py XOR a b s = Ok (Some (Z.lxor a b)) s /\ 0 <= Z.lxor a b <= 65535).
Proof.
  repeat split; try reflexivity;
    try (apply low_bits_word; intros n Hn;
         rewrite ?Z.land_spec, ?Z.lor_spec, ?Z.lxor_spec;
         now rewrite (word_testbit_high a n), (word_testbit_high b n)).
Qed.

Lemma X_tick_bitwise_witness :
  0 <= 12 <= 65535 /\ 0 <= 10 <= 65535 /\
  ((_tick Py2 AND 12 10 __init__ = Ok (Some (Z.land 12 10)) __init__
    /\ 0 <= Z.land 12 10 <= 65535)
   /\ (_tick Py2 BOR 12 10 __init__ = Ok (Some (Z.lor 12 10)) __init__
       /\ 0 <= Z.lor 12 10 <= 65535)
   /\ (_tick Py2 XOR 12 10 __init__ = Ok (Some (Z.lxor 12 10)) __init__
       /\ 0 <= Z.lxor 12 10 <= 65535)).
Proof.
  split; [lia |]. split; [lia |]. apply (X_tick_bitwise Py2 12 10 __init__); lia.
Defined.

(** X12. [SET] on a 16-bit a returns a itself and clears the flag, whatever
    b is: the value handed back for the store is the destination's own. *)
Theorem X_tick_SET (py : pyver) (a b : Z) (s : DCPU) (Ha : 0 <= a <= 65535) :
  _tick py SET a b s = Ok (Some a) (set_o false s).
Proof.
  rewrite _tick_SET_ignores_b. now rewrite land_MAX_VAL_id, _has_overflown_word.
Qed.

Lemma X_tick_SET_witness :
  0 <= 3 <= 65535 /\ _tick Py2 SET 3 5 __init__ = Ok (Some 3) (set_o false __init__).
Proof. split; [lia |]. apply (X_tick_SET Py2 3 5 __init__). lia. Defined.

(** What the handler leaves alone: memory, registers and sp, on every
    path. *)
Lemma _tick_frame py op a b s :
  let s' := final_state (_tick py op a b s) in
  memory s' = memory s /\ registers s' = registers s /\ sp s' = sp s.
Proof.
  unfold _tick. cbv zeta.
  repeat match goal with
    | |- context [if ?c then _ else _] =>
        lazymatch type of c with bool => destruct c end
    end;
    try destruct py; repeat split; reflexivity.
Qed.

(** A returned value comes with a state that differs from the entry state
    in the flag only. *)
Lemma _tick_value_flag_only py op a b s f s1 :
  _tick py op a b s = Ok (Some f) s1 -> exists fl, s1 = set_o fl s.
Proof.
  unfold _tick. cbv zeta.
  repeat match goal with
    | |- context [if ?c then _ else _] =>
        lazymatch type of c with bool => destruct c end
    end;
    try destruct py; unfold bind, ret, raise, modify, _overflown, load_global; simpl;
    intros H; try discriminate H; injection H as _ <-;
    try (eexists; reflexivity).
  all: exists (o s); now destruct s.
Qed.

(** ** Further properties of the value resolver *)

(** X3. A value code outside 0..31, the short literals 32..63 included,
    makes [_setval] raise NameError on a read and on a store alike, with the
    state untouched; the UNKNOWN VALUE CODE arm is not reached. *)
Theorem X_value_code_outside_0_31 (vc : Z) (f : option Z) (s : DCPU)
  (Hvc : vc < 0 \/ 32 <= vc) :
  _setval vc f s = Raise NameError s.
Proof.
  destruct Hvc; [now apply _setval_negative_NameError | now apply _setval_from_32_NameError].
Qed.

Lemma X_value_code_outside_0_31_witness :
  (37 < 0 \/ 32 <= 37) /\ _setval 37 None __init__ = Raise NameError __init__.
Proof.
  split; [right; lia |]. apply (X_value_code_outside_0_31 37 None __init__). right. lia.
Defined.

(** X4. The codes 8..15, memory addressed by a register, raise
    UnboundLocalError on a read and on a store alike, with the state
    untouched. *)
Theorem X_value_code_8_15 (vc : Z) (f : option Z) (s : DCPU) (Hvc : 8 <= vc < 16) :
  _setval vc f s = Raise UnboundLocalError s.
Proof. now apply _setval_REG_MEM_UnboundLocalError. Qed.

Lemma X_value_code_8_15_witness :
  8 <= 9 < 16 /\ _setval 9 (Some 1) __init__ = Raise UnboundLocalError __init__.
Proof. split; [lia |]. apply (X_value_code_8_15 9 (Some 1) __init__). lia. Defined.

(** X10. From a well-formed state a read through any value code stops in a
    well-formed state, and when it returns it returns a 16-bit value, never
    [None]. *)
Theorem X_getval_returns_word (vc : Z) (s : DCPU) (Hwf : wf s) :
  match _getval vc s with
  | Ok r s' => wf s' /\ exists z, r = Some z /\ 0 <= z <= 65535
  | Raise _ s' => wf s'
  end.
Proof.
  apply wf_WF in Hwf. pose proof (keeps__getval vc s Hwf) as H.
  destruct (_getval vc s); [destruct H as [H1 H2]; split |]; try now apply wf_WF.
  exact H2.
Qed.

Lemma X_getval_returns_word_witness :
  wf __init__ /\
  match _getval POP __init__ with
  | Ok r s' => wf s' /\ exists z, r = Some z /\ 0 <= z <= 65535
  | Raise _ s' => wf s'
  end.
Proof.
  split; [vm_compute; reflexivity |].
  apply (X_getval_returns_word POP __init__). vm_compute. reflexivity.
Defined.

Lemma reg_at_set_registers_same s i v :
  WF s -> 0 <= i < 8 ->
  reg_at (set_registers (<[Z.to_nat i := v]> (registers s)) s) i = v.
Proof.
  intros H Hi. unfold reg_at. simpl.
  rewrite seq_get_in_range by (rewrite length_insert, (wf_reg_len _ H); lia).
  rewrite list_lookup_insert_eq; [reflexivity |].
  pose proof (wf_reg_len _ H). lia.
Qed.

Lemma reg_at_set_registers_other s i j v :
  WF s -> 0 <= i < 8 -> 0 <= j < 8 -> j <> i ->
  reg_at (set_registers (<[Z.to_nat i := v]> (registers s)) s) j = reg_at s j.
Proof.
  intros H Hi Hj Hne. unfold reg_at. simpl.
  rewrite !seq_get_in_range by (rewrite ?length_insert, (wf_reg_len _ H); lia).
  rewrite list_lookup_insert_ne; [reflexivity | lia].
Qed.

(** X11. Storing a 16-bit value through a register code 0..7 and reading
    the code back gives the value; the other seven registers, the memory,
    both counters and the flag are as before. *)
Theorem X_register_store_read (vc v : Z) (s : DCPU)
  (Hwf : wf s) (Hvc : 0 <= vc < 8) (Hv : 0 <= v <= 65535) :
  exists s1,
    _setval vc (Some v) s = Ok None s1
    /\ _getval vc s1 = Ok (Some v) s1
    /\ (forall j, 0 <= j < 8 -> j <> vc -> reg_at s1 j = reg_at s j)
    /\ memory s1 = memory s /\ pc s1 = pc s /\ sp s1 = sp s /\ o s1 = o s.
Proof.
  apply wf_WF in Hwf.
  exists (set_registers (<[Z.to_nat vc := v]> (registers s)) s).
  split; [now apply _setval_REG |]. split.
  - rewrite _getval_REG by (try assumption; now apply WF_set_registers).
    now rewrite reg_at_set_registers_same.
  - split; [| repeat split].
    intros j Hj Hne. now apply reg_at_set_registers_other.
Qed.

Lemma X_register_store_read_witness :
  wf __init__ /\ 0 <= 3 < 8 /\ 0 <= 99 <= 65535 /\
  exists s1,
    _setval 3 (Some 99) __init__ = Ok None s1
    /\ _getval 3 s1 = Ok (Some 99) s1
    /\ (forall j, 0 <= j < 8 -> j <> 3 -> reg_at s1 j = reg_at __init__ j)
    /\ memory s1 = memory __init__ /\ pc s1 = pc __init__
    /\ sp s1 = sp __init__ /\ o s1 = o __init__.
Proof.
  split; [vm_compute; reflexivity |]. split; [lia |]. split; [lia |].
  apply (X_register_store_read 3 99 __init__); [vm_compute; reflexivity | lia | lia].
Defined.

(** X13. Storing a 16-bit value through PEEK and reading PEEK back gives the
    value; sp, pc and the flag do not move. *)
Theorem X_peek_store_read (v : Z) (s : DCPU) (Hwf : wf s) (Hv : 0 <= v <= 65535) :
  exists s1,
    _setval PEEK (Some v) s = Ok None s1
    /\ _getval PEEK s1 = Ok (Some v) s1
    /\ sp s1 = sp s /\ pc s1 = pc s /\ o s1 = o s /\ registers s1 = registers s.
Proof.
  apply wf_WF in Hwf. pose proof (wf_sp _ Hwf) as Hsp.
  exists (set_memory (<[Z.to_nat (sp s) := v]> (memory s)) s).
  split; [| split; [| repeat split]].
  - change (_setval PEEK (Some v)) with (p <- gets sp ;; mem_set p v ;; ret (@None Z)).
    unfold bind, gets. now rewrite mem_set_ok.
  - change (_getval PEEK) with (p <- gets sp ;; w <- mem_get p ;; ret (Some w)).
    unfold bind, gets. simpl sp.
    rewrite mem_get_ok by (try assumption; now apply WF_set_memory).
    now rewrite mem_at_set_memory_same.
Qed.

Lemma X_peek_store_read_witness :
  wf __init__ /\ 0 <= 5 <= 65535 /\
  exists s1,
    _setval PEEK (Some 5) __init__ = Ok None s1
    /\ _getval PEEK s1 = Ok (Some 5) s1
    /\ sp s1 = sp __init__ /\ pc s1 = pc __init__ /\ o s1 = o __init__
    /\ registers s1 = registers __init__.
Proof.
  split; [vm_compute; reflexivity |]. split; [lia |].
  apply (X_peek_store_read 5 __init__); [vm_compute; reflexivity | lia].
Defined.

(** X14. A POP read followed by a PUSH read returns the same word twice, the
    one at the initial sp, and leaves sp and the memory as they were. *)
Theorem X_pop_then_push_read (s : DCPU) (Hwf : wf s) :
  exists s1 s2,
    _getval POP s = Ok (Some (mem_at s (sp s))) s1
    /\ sp s1 = (sp s + 1) mod 65536
    /\ _getval PUSH s1 = Ok (Some (mem_at s (sp s))) s2
    /\ sp s2 = sp s /\ memory s2 = memory s.
Proof.
  apply wf_WF in Hwf. pose proof (wf_sp _ Hwf) as Hsp.
  set (s1 := set_sp (Z.land (sp s + 1) _MAX_VAL) (set_o (_has_overflown (sp s + 1)) s)).
  assert (Hs1 : WF s1) by (apply WF_set_sp; [apply land_MAX_VAL_word | now apply WF_set_o]).
  assert (Eback : Z.land (sp s1 - 1) _MAX_VAL = sp s).
  { simpl. rewrite !land_MAX_VAL. rewrite Zminus_mod_idemp_l.
    replace (sp s + 1 - 1) with (sp s) by lia. apply Z.mod_small. lia. }
  exists s1, (set_sp (sp s) (set_o (_has_overflown (sp s1 - 1)) s1)).
  split; [| split; [| split; [| split]]].
  - change (_getval POP)
      with (vc <- (p <- gets sp ;; mem_get p) ;; _incSP ;; ret (Some vc)).
    unfold bind, gets. rewrite mem_get_ok by assumption. now rewrite _incSP_eq.
  - simpl. apply land_MAX_VAL.
  - change (_getval PUSH)
      with (_decSP ;; p <- gets sp ;; w <- mem_get p ;; ret (Some w)).
    unfold bind at 1. rewrite _decSP_eq, Eback.
    unfold bind, gets. simpl sp.
    rewrite mem_get_ok; [reflexivity | | assumption].
    apply WF_set_sp; [assumption | now apply WF_set_o].
  - reflexivity.
  - reflexivity.
Qed.

Lemma X_pop_then_push_read_witness :
  let s := loaded [11; 22] [] in
  wf s /\
  exists s1 s2,
    _getval POP s = Ok (Some (mem_at s (sp s))) s1
    /\ sp s1 = (sp s + 1) mod 65536
    /\ _getval PUSH s1 = Ok (Some (mem_at s (sp s))) s2
    /\ sp s2 = sp s /\ memory s2 = memory s.
Proof.
  split; [vm_compute; reflexivity |].
  apply (X_pop_then_push_read (loaded [11; 22] [])). vm_compute. reflexivity.
Defined.

(** X8. A code 16..23 on a well-formed state: pc moves one word on, the
    word found there is added to the register, and the read returns the
    memory word at that sum modulo 65536; a store of a 16-bit value writes it
    at that address.  Either way the flag is left telling whether the
    address sum exceeded 65535. *)
Theorem X_offset_code_read_store (vc v : Z) (s : DCPU)
  (Hwf : wf s) (Hvc : 16 <= vc < 24) (Hv : 0 <= v <= 65535) :
  let addr := (reg_at s (vc - 16) + mem_at s ((pc s + 1) mod 65536)) mod 65536 in
  let s1 := offset_resolved s vc in
  _getval vc s = Ok (Some (mem_at s addr)) s1
  /\ _setval vc (Some v) s
     = Ok None (set_memory (<[Z.to_nat addr := v]> (memory s)) s1)
  /\ pc s1 = (pc s + 1) mod 65536
  /\ o s1 = (65535 <? reg_at s (vc - 16) + mem_at s ((pc s + 1) mod 65536)).
Proof.
  apply wf_WF in Hwf. intros addr s1. subst addr s1.
  rewrite <- land_MAX_VAL. fold (offset_address s vc).
  split; [now apply _getval_MEM_OFFSET_REG |].
  split; [now apply _setval_MEM_OFFSET_REG |].
  split; [reflexivity |].
  simpl. apply _has_overflown_nonneg. unfold offset_address.
  pose proof (reg_at_word s (vc - 16) Hwf).
  pose proof (mem_at_word s ((pc s + 1) mod 65536) Hwf). lia.
Qed.

Lemma X_offset_code_read_store_witness :
  let s := loaded [0; 100] [7] in
  wf s /\ 16 <= 16 < 24 /\ 0 <= 9 <= 65535 /\
  let addr := (reg_at s (16 - 16) + mem_at s ((pc s + 1) mod 65536)) mod 65536 in
  let s1 := offset_resolved s 16 in
  _getval 16 s = Ok (Some (mem_at s addr)) s1
  /\ _setval 16 (Some 9) s
     = Ok None (set_memory (<[Z.to_nat addr := 9]> (memory s)) s1)
  /\ pc s1 = (pc s + 1) mod 65536
  /\ o s1 = (65535 <? reg_at s (16 - 16) + mem_at s ((pc s + 1) mod 65536)).
Proof.
  split; [vm_compute; reflexivity |]. split; [lia |]. split; [lia |].
  apply (X_offset_code_read_store 16 9 (loaded [0; 100] [7]));
    [vm_compute; reflexivity | lia | lia].
Defined.

(** X9. Code 30 on a well-formed state: pc moves one word on, and the word
    found there is the address; a read returns the memory word at it, a
    store of a 16-bit value writes there.  The flag is left telling whether
    pc wrapped. *)
Theorem X_next_word_address_read_store (v : Z) (s : DCPU)
  (Hwf : wf s) (Hv : 0 <= v <= 65535) :
  _getval MEM s = Ok (Some (mem_at s (next_word s))) (pc_advanced s)
  /\ _setval MEM (Some v) s
     = Ok None (set_memory (<[Z.to_nat (next_word s) := v]> (memory s)) (pc_advanced s)).
Proof.
  apply wf_WF in Hwf. pose proof (WF_pc_advanced _ Hwf) as Hs1.
  pose proof (mem_at_word s ((pc s + 1) mod 65536) Hwf) as Hnw.
  split.
  - change (_getval MEM)
      with (_incPC ;; p <- gets pc ;; vc <- mem_get p ;; w <- mem_get vc ;; ret (Some w)).
    unfold bind at 1. rewrite _incPC_WF by assumption.
    unfold bind at 1, gets. unfold bind at 1.
    rewrite mem_get_ok by (assumption || apply (wf_pc _ Hs1)).
    unfold bind. rewrite mem_get_ok by assumption. reflexivity.
  - change (_setval MEM (Some v))
      with (_incPC ;; p <- gets pc ;; vc <- mem_get p ;; mem_set vc v ;; ret (@None Z)).
    unfold bind at 1. rewrite _incPC_WF by assumption.
    unfold bind at 1, gets. unfold bind at 1.
    rewrite mem_get_ok by (assumption || apply (wf_pc _ Hs1)).
    unfold bind. rewrite mem_set_ok by assumption. reflexivity.
Qed.

Lemma X_next_word_address_read_store_witness :
  let s := loaded [0; 300] [] in
  wf s /\ 0 <= 9 <= 65535 /\
  (_getval MEM s = Ok (Some (mem_at s (next_word s))) (pc_advanced s)
   /\ _setval MEM (Some 9) s
      = Ok None (set_memory (<[Z.to_nat (next_word s) := 9]> (memory s)) (pc_advanced s))).
Proof.
  split; [vm_compute; reflexivity |]. split; [lia |].
  apply (X_next_word_address_read_store 9 (loaded [0; 300] []));
    [vm_compute; reflexivity | lia].
Defined.

(** ** Further properties of the instruction cycle *)

(** With 16-bit operands the handler raises nothing but NameError,
    ZeroDivisionError and, under Python 3, TypeError. *)
Lemma _tick_raises py op a b s e s' :
  0 <= b -> _tick py op a b s = Raise e s' -> tick_exception py e = true.
Proof.
  intros Hb. unfold _tick. cbv zeta.
  repeat match goal with
    | |- context [if ?c then _ else _] =>
        lazymatch type of c with bool => destruct c eqn:? end
    end;
    try destruct py; unfold bind, ret, raise, modify, _overflown, load_global; simpl;
    intros H; try discriminate H; injection H as <- _; try reflexivity.
  all: exfalso; match goal with H : (_ <? 0) = true |- _ => apply Z.ltb_lt in H; lia end.
Qed.

(** [tick] past the operand reads, for the two operand pairs it can
    resolve. *)
Lemma tick_A_A_finish py s :
  WF s ->
  let v := mem_at s (pc s) in
  Z.land v _OP_PORTION <> NOP -> Z.land v _AV_PORTION = 0 -> Z.land v _BV_PORTION = 0 ->
  tick py s = tick_finish py (Z.land v _OP_PORTION) 0 (reg_at s 0) (reg_at s 0) s.
Proof.
  intros Hs v Hop Ea Eb. rewrite tick_not_NOP by assumption. fold v.
  unfold tick_finish. unfold bind at 1. unfold bind at 3.
  now rewrite tick_execute_A_A.
Qed.

Lemma tick_M_A_finish py s :
  WF s ->
  let v := mem_at s (pc s) in
  Z.land v _OP_PORTION <> NOP -> Z.land v _AV_PORTION = 16 -> Z.land v _BV_PORTION = 0 ->
  tick py s
  = tick_finish py (Z.land v _OP_PORTION) 16
      (mem_at s (Z.land (offset_address s 16) _MAX_VAL)) (reg_at s 0)
      (offset_resolved s 16).
Proof.
  intros Hs v Hop Ea Eb. rewrite tick_not_NOP by assumption. fold v.
  unfold tick_finish. unfold bind at 1. unfold bind at 3.
  unfold tick_execute. rewrite Ea, Eb.
  unfold bind at 1. rewrite _getval_MEM_OFFSET_REG by (assumption || lia).
  unfold bind at 1.
  rewrite _getval_REG by (try lia; apply WF_set_o, WF_pc_advanced, Hs).
  reflexivity.
Qed.

(** The five ways a [tick] from a well-formed state can go. *)
Lemma tick_cases py s :
  WF s ->
  let v := mem_at s (pc s) in
  let op := Z.land v _OP_PORTION in
  tick py s = Ok tt s
  \/ tick py s = Raise NameError s
  \/ tick py s = Raise NameError (offset_resolved s 16)
  \/ tick py s = tick_finish py op 0 (reg_at s 0) (reg_at s 0) s
  \/ tick py s
     = tick_finish py op 16 (mem_at s (Z.land (offset_address s 16) _MAX_VAL))
         (reg_at s 0) (offset_resolved s 16).
Proof.
  intros Hs v op.
  destruct (Z.eq_dec op NOP) as [E | Hop]; [left; now apply tick_NOP |].
  destruct (AV_field_values v) as [Ea | [Ea | Ea]];
    destruct (BV_field_values v) as [Eb | Eb].
  - right; right; right; left. now apply tick_A_A_finish.
  - right; left. apply tick_A_bad_b; try assumption. fold v. lia.
  - right; right; right; right. now apply tick_M_A_finish.
  - right; right; left. rewrite tick_not_NOP by assumption. fold v.
    unfold bind at 1. unfold tick_execute. rewrite Ea.
    unfold bind at 1. rewrite _getval_MEM_OFFSET_REG by (assumption || lia).
    unfold bind at 1. unfold _getval. now rewrite _setval_from_32_NameError.
  - right; left. rewrite tick_not_NOP by assumption. fold v.
    unfold bind at 1. unfold tick_execute.
    unfold bind at 1. unfold _getval. now rewrite _setval_from_32_NameError.
  - right; left. rewrite tick_not_NOP by assumption. fold v.
    unfold bind at 1. unfold tick_execute.
    unfold bind at 1. unfold _getval. now rewrite _setval_from_32_NameError.
Qed.

(** What the rest of the cycle leaves alone and how it can end, for the two
    operand codes [tick] can store through. *)
Lemma tick_finish_facts py op a x y s1 :
  WF s1 -> 0 <= y <= 65535 -> a = 0 \/ a = 16 ->
  let r := tick_finish py op a x y s1 in
  sp (final_state r) = sp s1
  /\ (forall j, 1 <= j < 8 -> reg_at (final_state r) j = reg_at s1 j)
  /\ match outcome r with
     | None => True
     | Some e => tick_exception py e = true
     end.
Proof.
  intros Hs Hy Ha r.
  remember (tick_finish py op a x y s1) as r0 eqn:Er. subst r.
  unfold tick_finish in Er. unfold bind at 1 in Er. unfold bind at 1 in Er.
  pose proof (_tick_frame py op x y s1) as Hfr. cbv zeta in Hfr.
  destruct (_tick py op x y s1) as [[f |] s2 | e s2] eqn:E; simpl in Hfr.
  - destruct (_tick_value_flag_only _ _ _ _ _ _ _ E) as [fl ->].
    unfold bind at 1 in Er. rewrite _overflown_eq in Er.
    set (w := Z.land f _MAX_VAL) in *.
    set (s3 := set_o (_has_overflown f) (set_o fl s1)) in *.
    assert (Hw : 0 <= w <= 65535) by apply land_MAX_VAL_word.
    assert (Hs3 : WF s3) by now repeat apply WF_set_o.
    unfold bind at 1 in Er.
    destruct Ha as [-> | ->].
    + rewrite _setval_REG in Er by (assumption || lia). unfold ret in Er.
      rewrite _incPC_eq in Er. subst r0.
      simpl. split; [reflexivity |]. split; [| exact I].
      intros j Hj.
      change (reg_at (set_registers (<[Z.to_nat 0 := w]> (registers s3)) s3) j = reg_at s3 j).
      apply reg_at_set_registers_other; try assumption; lia.
    + rewrite _setval_MEM_OFFSET_REG in Er by (assumption || lia). unfold ret in Er.
      rewrite _incPC_eq in Er. subst r0. simpl. repeat split.
  - destruct Hfr as (_ & Hr & Hsp). unfold ret in Er. rewrite _incPC_eq in Er.
    subst r0. simpl.
    split; [exact Hsp |]. split; [| exact I].
    intros j _. unfold reg_at. simpl. now rewrite Hr.
  - destruct Hfr as (_ & Hr & Hsp). subst r0. simpl.
    split; [exact Hsp |]. split.
    + intros j _. unfold reg_at. now rewrite Hr.
    + eapply _tick_raises; [| exact E]. lia.
Qed.

(** X1. [tick] keeps a well-formed CPU well formed, whether it returns or
    raises: 65536 memory words and 8 registers, all in 0..65535, and pc and
    sp in that range. *)
Theorem X_tick_preserves_wf (py : pyver) (s : DCPU) (Hwf : wf s) :
  wf (final_state (tick py s)).
Proof.
  apply wf_WF in Hwf. apply wf_WF. pose proof (keeps_tick py s Hwf) as H.
  destruct (tick py s); simpl; tauto.
Qed.

Lemma X_tick_preserves_wf_witness :
  let s := loaded [encode ADD 1 0; 100; 200] [7] in
  wf s /\ wf (final_state (tick Py3 s)).
Proof.
  split; [vm_compute; reflexivity |].
  apply (X_tick_preserves_wf Py3 (loaded [encode ADD 1 0; 100; 200] [7])).
  vm_compute. reflexivity.
Defined.

(** X20. Whatever the instruction and however the cycle ends, one [tick]
    from a well-formed state leaves sp and the registers 1..7 (B to J) as
    they were: only register A, memory, pc and the flag can change. *)
Theorem X_tick_frame (py : pyver) (s : DCPU) (Hwf : wf s) :
  sp (final_state (tick py s)) = sp s
  /\ forall j, 1 <= j < 8 -> reg_at (final_state (tick py s)) j = reg_at s j.
Proof.
  apply wf_WF in Hwf.
  assert (Hs1 : WF (offset_resolved s 16)) by apply WF_set_o, WF_pc_advanced, Hwf.
  pose proof (reg_at_word s 0 Hwf) as HA.
  destruct (tick_cases py s Hwf) as [E | [E | [E | [E | E]]]]; rewrite E.
  - now split.
  - now split.
  - now split.
  - destruct (tick_finish_facts py (Z.land (mem_at s (pc s)) _OP_PORTION) 0
                (reg_at s 0) (reg_at s 0) s Hwf HA (or_introl eq_refl)) as (H1 & H2 & _).
    now split.
  - destruct (tick_finish_facts py (Z.land (mem_at s (pc s)) _OP_PORTION) 16
                (mem_at s (Z.land (offset_address s 16) _MAX_VAL)) (reg_at s 0)
                (offset_resolved s 16) Hs1 HA (or_intror eq_refl)) as (H1 & H2 & _).
    split; [exact H1 | exact H2].
Qed.

Lemma X_tick_frame_witness :
  let s := loaded [encode ADD 1 0; 100; 200] [7; 8; 9] in
  wf s /\
  (sp (final_state (tick Py2 s)) = sp s
   /\ forall j, 1 <= j < 8 -> reg_at (final_state (tick Py2 s)) j = reg_at s j).
Proof.
  split; [vm_compute; reflexivity |].
  apply (X_tick_frame Py2 (loaded [encode ADD 1 0; 100; 200] [7; 8; 9])).
  vm_compute. reflexivity.
Defined.



(** ** The arms that call [_abort] are dead *)

Section NoAbort.
Context {A B : Type}.

Lemma no_abort_ret (a : A) (Q : A -> Prop) : Q a -> no_abort (ret a) Q.
Proof. intros Ha s. exact Ha. Qed.

Lemma no_abort_raise (e : exn) (Q : A -> Prop) :
  is_abort e = false -> no_abort (raise e) Q.
Proof. intros He s. exact He. Qed.

Lemma no_abort_bind (m : M A) (k : A -> M B) (Q : A -> Prop) (R : B -> Prop) :
  no_abort m Q -> (forall a, Q a -> no_abort (k a) R) -> no_abort (bind m k) R.
Proof.
  intros Hm Hk s. unfold bind. specialize (Hm s).
  destruct (m s) as [a s' | e s']; [exact (Hk a Hm s') | exact Hm].
Qed.

Lemma no_abort_gets (f : DCPU -> A) : no_abort (gets f) any.
Proof. intros s. exact I. Qed.

Lemma no_abort_load_global name : no_abort (@load_global A name) (fun _ => False).
Proof. now apply no_abort_raise. Qed.

Lemma no_abort_load_unbound_local name :
  no_abort (@load_unbound_local A name) (fun _ => False).
Proof. now apply no_abort_raise. Qed.
End NoAbort.

Lemma no_abort_modify f : no_abort (modify f) any.
Proof. intros s. exact I. Qed.

Lemma no_abort_mem_get i : no_abort (mem_get i) any.
Proof. intros s. unfold mem_get. now destruct (seq_get (memory s) i). Qed.

Lemma no_abort_reg_get i : no_abort (reg_get i) any.
Proof. intros s. unfold reg_get. now destruct (seq_get (registers s) i). Qed.

Lemma no_abort_mem_set i v : no_abort (mem_set i v) any.
Proof.
  intros s. unfold mem_set. destruct (py_index (memory s) i); [| reflexivity].
  now destruct ((v <? 0) || (v >? _MAX_VAL)).
Qed.

Lemma no_abort_reg_set i v : no_abort (reg_set i v) any.
Proof. intros s. unfold reg_set. now destruct (py_index (registers s) i). Qed.

Lemma no_abort__overflown v setO : no_abort (_overflown v setO) any.
Proof. intros s. exact I. Qed.

Lemma no_abort__incPC : no_abort _incPC any.
Proof. intros s. exact I. Qed.

Lemma no_abort__incSP : no_abort _incSP any.
Proof. intros s. exact I. Qed.

Lemma no_abort__decSP : no_abort _decSP any.
Proof. intros s. exact I. Qed.

Create HintDb no_abort.
#[local] Hint Resolve no_abort_gets no_abort_modify no_abort_mem_get no_abort_reg_get
  no_abort_mem_set no_abort_reg_set no_abort__overflown no_abort__incPC
  no_abort__incSP no_abort__decSP no_abort_load_global
  no_abort_load_unbound_local : no_abort.

Ltac no_abort_auto :=
  repeat first
    [ solve [exfalso; assumption]
    | solve [eauto with no_abort]
    | lazymatch goal with
      | |- no_abort (bind _ _) _ =>
          eapply no_abort_bind; [| intros ? ?; cbv beta in *]
      | |- no_abort (if ?c then _ else _) _ => destruct c
      | |- no_abort (match ?x with _ => _ end) _ => destruct x
      | |- no_abort (ret _) _ => apply no_abort_ret
      | |- no_abort (raise _) _ => apply no_abort_raise; reflexivity
      end
    | exact I ].

Lemma no_abort__setval vc f : no_abort (_setval vc f) any.
Proof. unfold _setval. no_abort_auto. Qed.

Lemma no_abort__tick py op a b : no_abort (_tick py op a b) any.
Proof. unfold _tick. cbv zeta. no_abort_auto. Qed.

Lemma no_abort_tick py : no_abort (tick py) any.
Proof.
  unfold tick, tick_execute, _getval, as_int. cbv zeta.
  pose proof no_abort__setval. pose proof no_abort__tick.
  no_abort_auto.
Qed.

(** X5. Neither call of [_abort] can run: from any state and for any
    arguments, [_setval], [_tick] and [tick] never raise the exception that
    [_abort] raises (UNKNOWN VALUE CODE, UNKNOWN OPCODE). *)
Theorem X_abort_is_dead (py : pyver) (s : DCPU) (op a b vc : Z) (f : option Z)
  (msg : string) (arg : Z) :
  outcome (_setval vc f s) <> Some (PyException msg arg)
  /\ outcome (_tick py op a b s) <> Some (PyException msg arg)
  /\ outcome (tick py s) <> Some (PyException msg arg).
Proof.
  pose proof (no_abort__setval vc f s) as H1.
  pose proof (no_abort__tick py op a b s) as H2.
  pose proof (no_abort_tick py s) as H3.
  repeat split; intros E.
  - destruct (_setval vc f s); [discriminate E |]. injection E as ->. discriminate H1.
  - destruct (_tick py op a b s); [discriminate E |]. injection E as ->. discriminate H2.
  - destruct (tick py s); [discriminate E |]. injection E as ->. discriminate H3.
Qed.

(** ** Whole instructions *)

(** X6. The operand fields are used unshifted, so from a well-formed state
    every instruction with a non-reserved opcode whose field b is not 0, or
    whose field a is neither 0 nor 1, raises NameError. *)
Theorem X_tick_operand_fields (py : pyver) (s : DCPU)
  (Hwf : wf s)
  (Hop : Z.land (mem_at s (pc s)) _OP_PORTION <> NOP)
  (Hfields : Z.land (mem_at s (pc s)) _BV_PORTION <> 0
             \/ (Z.land (mem_at s (pc s)) _AV_PORTION <> 0
                 /\ Z.land (mem_at s (pc s)) _AV_PORTION <> 16)) :
  outcome (tick py s) = Some NameError.
Proof. apply wf_WF in Hwf. now apply tick_fields_NameError. Qed.

Lemma X_tick_operand_fields_witness :
  let s := loaded [encode ADD 0 (32 + 1)] [65535] in
  wf s
  /\ Z.land (mem_at s (pc s)) _OP_PORTION <> NOP
  /\ (Z.land (mem_at s (pc s)) _BV_PORTION <> 0
      \/ (Z.land (mem_at s (pc s)) _AV_PORTION <> 0
          /\ Z.land (mem_at s (pc s)) _AV_PORTION <> 16))
  /\ outcome (tick Py2 s) = Some NameError.
Proof.
  split; [vm_compute; reflexivity |].
  split; [vm_compute; discriminate |].
  split; [left; vm_compute; discriminate |].
  apply (X_tick_operand_fields Py2 (loaded [encode ADD 0 (32 + 1)] [65535])).
  - vm_compute. reflexivity.
  - vm_compute. discriminate.
  - left. vm_compute. discriminate.
Defined.

(** X7. A CPU whose pc points at a word with opcode 0 stays exactly as it
    is under any number of [tick] calls: the driver's freshly built CPUs
    never leave address 0. *)
Theorem X_ticks_stuck_on_nop (py : pyver) (n : nat) (s : DCPU)
  (Hwf : wf s) (Hop : Z.land (mem_at s (pc s)) _OP_PORTION = NOP) :
  ticks py n s = Ok tt s.
Proof.
  apply wf_WF in Hwf. induction n as [| n IH]; [reflexivity |].
  simpl. unfold bind. now rewrite tick_NOP.
Qed.

Lemma X_ticks_stuck_on_nop_witness :
  wf __init__ /\ Z.land (mem_at __init__ (pc __init__)) _OP_PORTION = NOP
  /\ ticks Py3 1000 __init__ = Ok tt __init__.
Proof.
  split; [vm_compute; reflexivity |]. split; [vm_compute; reflexivity |].
  apply (X_ticks_stuck_on_nop Py3 1000 __init__); vm_compute; reflexivity.
Defined.

(** X24. A register-to-register instruction (both operand fields 0) whose
    handler returns a value f ends with f mod 65536 in register A, pc one
    word on, the flag telling whether pc wrapped, and nothing else
    changed. *)
Theorem X_tick_register_instruction (py : pyver) (s : DCPU) (f : Z)
  (Hwf : wf s)
  (Hop : Z.land (mem_at s (pc s)) _OP_PORTION <> NOP)
  (Ha : Z.land (mem_at s (pc s)) _AV_PORTION = 0)
  (Hb : Z.land (mem_at s (pc s)) _BV_PORTION = 0)
  (Hf : returned (_tick py (Z.land (mem_at s (pc s)) _OP_PORTION)
                    (reg_at s 0) (reg_at s 0) s) = Some (Some f)) :
  tick py s
  = Ok tt (pc_advanced (set_registers (<[0%nat := f mod 65536]> (registers s)) s)).
Proof.
  apply wf_WF in Hwf. rewrite tick_A_A_finish by assumption.
  unfold tick_finish. unfold bind at 1. unfold bind at 1.
  destruct (_tick py (Z.land (mem_at s (pc s)) _OP_PORTION) (reg_at s 0) (reg_at s 0) s)
    as [r s1 | e s1] eqn:E; [| discriminate Hf].
  injection Hf as ->.
  destruct (_tick_value_flag_only _ _ _ _ _ _ _ E) as [fl ->].
  unfold bind at 1. rewrite _overflown_eq.
  unfold bind at 1. rewrite _setval_REG by (try lia; now repeat apply WF_set_o).
  unfold ret. rewrite _incPC_WF.
  - rewrite land_MAX_VAL. reflexivity.
  - apply WF_set_registers; [apply land_MAX_VAL_word | now repeat apply WF_set_o].
Qed.

Lemma X_tick_register_instruction_witness :
  let s := loaded [encode MUL 0 0] [300] in
  wf s
  /\ Z.land (mem_at s (pc s)) _OP_PORTION <> NOP
  /\ Z.land (mem_at s (pc s)) _AV_PORTION = 0
  /\ Z.land (mem_at s (pc s)) _BV_PORTION = 0
  /\ returned (_tick Py2 (Z.land (mem_at s (pc s)) _OP_PORTION)
                 (reg_at s 0) (reg_at s 0) s) = Some (Some 24464)
  /\ tick Py2 s
     = Ok tt (pc_advanced (set_registers (<[0%nat := 24464 mod 65536]> (registers s)) s)).
Proof.
  split; [vm_compute; reflexivity |].
  split; [vm_compute; discriminate |].
  split; [vm_compute; reflexivity |].
  split; [vm_compute; reflexivity |].
  split; [vm_compute; reflexivity |].
  apply (X_tick_register_instruction Py2 (loaded [encode MUL 0 0] [300]) 24464).
  - vm_compute. reflexivity.
  - vm_compute. discriminate.
  - vm_compute. reflexivity.
  - vm_compute. reflexivity.
  - vm_compute. reflexivity.
Defined.

(** X22. [IFE [next word + A], A] from a well-formed state: the operand
    word is consumed, and the cycle ends two words after the instruction
    when the memory word equals A, three words after it (the next word
    skipped) when it differs; memory, registers and sp are untouched. *)
Theorem X_tick_IFE_skips (py : pyver) (s : DCPU)
  (Hwf : wf s) (Hw : mem_at s (pc s) = encode IFE 1 0) :
  let x := mem_at s ((reg_at s 0 + next_word s) mod 65536) in
  tick py s
  = Ok tt (if x =? reg_at s 0 then pc_advanced (pc_advanced s)
           else pc_advanced (pc_advanced (pc_advanced s))).
Proof.
  apply wf_WF in Hwf. intros x.
  assert (Hs0 : WF (pc_advanced s)) by now apply WF_pc_advanced.
  assert (Hs1 : WF (offset_resolved s 16)) by now apply WF_set_o.
  rewrite tick_M_A_finish by (assumption || (rewrite Hw; vm_compute; congruence)).
  rewrite Hw. change (Z.land (encode IFE 1 0) _OP_PORTION) with IFE.
  unfold tick_finish. unfold bind at 1. unfold bind at 1.
  rewrite _tick_IFE. rewrite land_MAX_VAL.
  change (offset_address s 16) with (reg_at s 0 + next_word s). fold x.
  destruct (x =? reg_at s 0).
  - unfold ret. rewrite _incPC_WF by assumption. reflexivity.
  - unfold ret.
    change (set_pc (Z.land (pc (offset_resolved s 16) + 1) _MAX_VAL)
              (set_o (_has_overflown (pc (offset_resolved s 16) + 1))
                 (offset_resolved s 16)))
      with (final_state (_incPC (offset_resolved s 16))).
    rewrite (_incPC_WF (offset_resolved s 16)) by assumption. simpl final_state.
    rewrite _incPC_WF by now apply WF_pc_advanced. reflexivity.
Qed.

Lemma X_tick_IFE_skips_witness :
  let s := loaded [encode IFE 1 0; 5] [7] in
  wf s /\ mem_at s (pc s) = encode IFE 1 0 /\
  let x := mem_at s ((reg_at s 0 + next_word s) mod 65536) in
  tick Py2 s
  = Ok tt (if x =? reg_at s 0 then pc_advanced (pc_advanced s)
           else pc_advanced (pc_advanced (pc_advanced s))).
Proof.
  split; [vm_compute; reflexivity |]. split; [vm_compute; reflexivity |].
  apply (X_tick_IFE_skips Py2 (loaded [encode IFE 1 0; 5] [7])); vm_compute; reflexivity.
Defined.

(** ** Construction and stores *)

Lemma mem_at_replicate_zero (k : nat) (i : Z) : default 0 (seq_get (replicate k 0) i) = 0.
Proof.
  unfold seq_get. destruct (py_index (replicate k 0) i) as [j |]; [| reflexivity].
  destruct (replicate k 0 !! j) as [y |] eqn:E; [| reflexivity].
  apply lookup_replicate in E as [-> _]. reflexivity.
Qed.

(** X2. [_init_cpu(size, num_registers)] builds a CPU whose memory and
    registers read 0 everywhere, with pc = sp = 0 and the flag false; it has
    8 registers whatever [num_registers] is, and it is well formed exactly
    when [size] is 65536. *)
Theorem X_init_cpu (size num_registers : Z) :
  (wf (_init_cpu size num_registers) <-> size = 65536)
  /\ length (registers (_init_cpu size num_registers)) = 8%nat
  /\ (forall i, mem_at (_init_cpu size num_registers) i = 0
                /\ reg_at (_init_cpu size num_registers) i = 0)
  /\ pc (_init_cpu size num_registers) = 0
  /\ sp (_init_cpu size num_registers) = 0
  /\ o (_init_cpu size num_registers) = false.
Proof.
  split; [| split; [| split; [| repeat split]]].
  - rewrite wf_WF. split.
    + intros H. pose proof (wf_mem_len _ H) as Hlen.
      unfold _init_cpu, _buffer in Hlen. cbn [memory] in Hlen.
      rewrite length_replicate in Hlen. lia.
    + intros ->. constructor; unfold _init_cpu, _buffer; cbn [memory registers pc sp].
      * rewrite length_replicate. apply Z2Nat.id. lia.
      * apply Forall_replicate. unfold _MEM_DEFAULT. lia.
      * rewrite length_replicate. apply Z2Nat.id. unfold _NUM_REGISTERS. lia.
      * apply Forall_replicate. unfold _REG_DEFAULT. lia.
      * unfold _PC_DEFAULT. lia.
      * unfold _SP_DEFAULT. lia.
  - unfold _init_cpu. cbn [registers]. rewrite length_replicate. reflexivity.
  - intros i. split; apply mem_at_replicate_zero.
Qed.

(** X23. A store of a 16-bit value through any value code, whether it
    returns or raises, leaves a well-formed CPU well formed. *)
Theorem X_setval_preserves_wf (vc v : Z) (s : DCPU)
  (Hwf : wf s) (Hv : 0 <= v <= 65535) :
  wf (final_state (_setval vc (Some v) s)).
Proof.
  apply wf_WF in Hwf. apply wf_WF.
  pose proof (keeps__setval_write vc v Hv s Hwf) as H.
  destruct (_setval vc (Some v) s); simpl; tauto.
Qed.

Lemma X_setval_preserves_wf_witness :
  wf __init__ /\ 0 <= 65535 <= 65535
  /\ wf (final_state (_setval PUSH (Some 65535) __init__)).
Proof.
  split; [vm_compute; reflexivity |]. split; [lia |].
  apply (X_setval_preserves_wf PUSH 65535 __init__); [vm_compute; reflexivity | lia].
Defined.
